(** * AURORA (QDax): the sequence model and the orchestration loop

    A shallow embedding of

    - [qdax/utils/seq2seq_model.py]: the LSTM encoder/decoder
      ([EncoderLSTM], [Encoder], [DecoderLSTM], [Decoder], [Seq2seq]);
    - [tests/core_test/aurora_test.py]: the metrics function, the retrain
      schedule and the body of the main loop of [test_aurora] (scan of
      updates, retrain-and-reinsert branch, threshold controller branch).

    Conventions.  jnp arrays are lists (axis 0 outermost).  Floating point
    numbers are read as exact rationals ([Q]); the sentinel [-jnp.inf] is a
    constructor of its own ([NegInf]).  Python integers and the int32 values of
    jnp are [Z], with the 32-bit wrap-around written out where the code adds
    jnp integers.  Collaborators that are not part of these two files (flax's
    [LSTMCell] and [Dense], [AURORA.update], [lstm_ae_train], [jax.random.split])
    are fields of type classes. *)

From Stdlib Require Import List ZArith QArith Bool Lia Lqa Sorted.
Import ListNotations.

Set Implicit Arguments.

(* ================================================================== *)
(** * Part I: definitions                                              *)
(* ================================================================== *)

(** ** Arrays *)

Definition Vec := list Q.
Definition Array2 := list Vec.      (* shape (rows, features) *)
Definition Array3 := list Array2.   (* shape (batch, time, features) *)

(** [jnp.zeros((rows, cols))] *)
Definition jnp_zeros (cols : nat) : Vec := repeat 0%Q cols.
Definition jnp_zeros2 (rows cols : nat) : Array2 := repeat (jnp_zeros cols) rows.

(** [a.shape[1]] of a rectangular array of rank at least two. *)
Definition shape1 (A : Type) (a : list (list A)) : nat :=
  match a with
  | [] => 0
  | s :: _ => length s
  end.

(** [a[:, 0]] and [a[:, 1:]]. *)
Definition column0 (a : Array3) : Array2 := map (hd []) a.
Definition columns_from1 (a : Array3) : Array3 := map (@tl Vec) a.

(** The slices [a[:, 0], a[:, 1], ..., a[:, T-1]] that a scan with
    [in_axes=1] feeds to its body, in order. *)
Fixpoint in_axes1 (T : nat) (a : Array3) : list Array2 :=
  match T with
  | O => []
  | S T' => column0 a :: in_axes1 T' (columns_from1 a)
  end.

(** Stacking per-step outputs of shape (batch, k) along axis 1
    ([out_axes=1]): sample [b] gets the list of its rows over time. *)
Definition out_axes1 (B : nat) (ys : list Array2) : Array3 :=
  map (fun b => map (fun y => nth b y []) ys) (seq 0 B).

(** [nn.scan]: thread the carry through the slices, collect the outputs. *)
Fixpoint nn_scan (C X Y : Type) (body : C -> X -> C * Y)
         (carry : C) (xs : list X) : C * list Y :=
  match xs with
  | [] => (carry, [])
  | x :: xs' =>
      let '(carry', y) := body carry x in
      let '(final, ys) := nn_scan body carry' xs' in
      (final, y :: ys)
  end.

(** ** A state-and-error monad for calls that read or write named state *)

Module StateErr.

Definition M (S A : Type) : Type := S -> option (A * S).

Definition ret {S A : Type} (a : A) : M S A := fun s => Some (a, s).

Definition bind {S A B : Type} (m : M S A) (k : A -> M S B) : M S B :=
  fun s => match m s with
           | Some (a, s') => k a s'
           | None => None
           end.

Definition gets {S A : Type} (proj : S -> A) : M S A :=
  fun s => Some (proj s, s).

Definition raise {S A : Type} : M S A := fun _ => None.

Definition lift_option {S A : Type} (o : option A) : M S A :=
  fun s => match o with Some a => Some (a, s) | None => None end.

End StateErr.

Declare Scope staterr_scope.
Delimit Scope staterr_scope with staterr.
Notation "x <- m ;; k" := (StateErr.bind m (fun x => k))
  (at level 61, m at next level, right associativity) : staterr_scope.

(** ** flax.linen collaborators *)

(** [nn.LSTMCell] and [nn.Dense] act on every row of a batch alike; the
    class gives their action on one row.  An LSTM carry is the pair (c, h) and
    the cell returns the new carry and its output. *)
Class Linen : Type := {
  CellParams : Type;
  DenseParams : Type;
  LSTMCell : CellParams -> Vec * Vec -> Vec -> (Vec * Vec) * Vec;
  Dense : DenseParams -> nat -> Vec -> Vec
}.

(** The variables of [Seq2seq]: one scope per submodule that creates
    parameters. *)
Record Params `{Linen} : Type := {
  encoder_lstm : CellParams;
  decoder_lstm : CellParams;
  decoder_dense : DenseParams
}.

Module Seq2seqModel.
Section Model.
Context `{Linen}.

(** *** Batched primitives *)

(** [nn.LSTMCell()(lstm_state, x)] on a batch: row by row. *)
Fixpoint LSTMCell_rows (p : CellParams) (c h x : Array2)
  : list ((Vec * Vec) * Vec) :=
  match c, h, x with
  | ci :: c', hi :: h', xi :: x' =>
      LSTMCell p (ci, hi) xi :: LSTMCell_rows p c' h' x'
  | _, _, _ => []
  end.

Definition LSTMCell_batch (p : CellParams) (lstm_state : Array2 * Array2)
           (x : Array2) : (Array2 * Array2) * Array2 :=
  let rows := LSTMCell_rows p (fst lstm_state) (snd lstm_state) x in
  ((map (fun r => fst (fst r)) rows, map (fun r => snd (fst r)) rows),
   map snd rows).

(** [jnp.where(cond[:, np.newaxis], x, y)]: row [b] is [x[b]] where
    [cond[b]] holds and [y[b]] elsewhere. *)
Fixpoint jnp_where (cond : list bool) (x y : Array2) : Array2 :=
  match cond, x, y with
  | cb :: cond', xb :: x', yb :: y' =>
      (if cb then xb else yb) :: jnp_where cond' x' y'
  | _, _, _ => []
  end.

(** *** EncoderLSTM.__call__ (one step of the scan) *)

Definition select_carried_state (is_eos : list bool)
           (new_state old_state : Array2) : Array2 :=
  jnp_where is_eos old_state new_state.

Definition EncoderLSTM (p : CellParams)
           (carry : (Array2 * Array2) * list bool) (x : Array2)
  : ((Array2 * Array2) * list bool) * Array2 :=
  let '(lstm_state, is_eos) := carry in
  let '(new_lstm_state, y) := LSTMCell_batch p lstm_state x in
  let carried_lstm_state :=
    (select_carried_state is_eos (fst new_lstm_state) (fst lstm_state),
     select_carried_state is_eos (snd new_lstm_state) (snd lstm_state)) in
  (* the update of is_eos is commented out in the source *)
  ((carried_lstm_state, is_eos), y).

(** [EncoderLSTM.initialize_carry]: the default state is zeros. *)
Definition initialize_carry (batch_size hidden_size : nat)
  : Array2 * Array2 :=
  (jnp_zeros2 batch_size hidden_size, jnp_zeros2 batch_size hidden_size).

(** *** Encoder.__call__ *)

Definition Encoder (hidden_size : nat) (p : CellParams) (inputs : Array3)
  : Array2 * Array2 :=
  let batch_size := length inputs in
  let init_lstm_state := initialize_carry batch_size hidden_size in
  let init_is_eos := repeat false batch_size in
  let init_carry := (init_lstm_state, init_is_eos) in
  let '((final_state, _), _) :=
    nn_scan (EncoderLSTM p) init_carry (in_axes1 (shape1 inputs) inputs) in
  final_state.

(** *** DecoderLSTM.__call__ (one step of the scan) *)

Definition DecoderLSTM (teacher_force : bool) (obs_size : nat)
           (pc : CellParams) (pd : DenseParams)
           (carry : (Array2 * Array2) * Array2) (x : Array2)
  : ((Array2 * Array2) * Array2) * (Array2 * Array2) :=
  let '(lstm_state, last_prediction) := carry in
  let x := if negb teacher_force then last_prediction else x in
  let '(lstm_state, y) := LSTMCell_batch pc lstm_state x in
  let logits := map (Dense pd obs_size) y in
  ((lstm_state, logits), (logits, logits)).

(** *** Decoder.__call__

    [inputs[:, 0]] raises on an empty time axis: [None].  The inputs are
    those of a batch with at least one sample whose feature size is
    [obs_size], the size of the logits that replace it in the carry (on
    other feature sizes the scan of the code rejects the carry). *)
Definition Decoder (teacher_force : bool) (obs_size : nat)
           (pc : CellParams) (pd : DenseParams)
           (inputs : Array3) (init_state : Array2 * Array2)
  : option (Array3 * Array3) :=
  match shape1 inputs with
  | O => None
  | S _ =>
      let init_carry := (init_state, column0 inputs) in
      let '(_, ys) :=
        nn_scan (DecoderLSTM teacher_force obs_size pc pd) init_carry
                (in_axes1 (shape1 inputs) inputs) in
      let logits := out_axes1 (length inputs) (map fst ys) in
      let predictions := out_axes1 (length inputs) (map snd ys) in
      Some (logits, predictions)
  end.

(** *** Seq2seq *)

Record Seq2seq : Type := {
  teacher_force : bool;
  hidden_size : nat;
  obs_size : nat
}.

(** [Seq2seq.__call__] *)
Definition Seq2seq_call (model : Seq2seq) (params : Params)
           (encoder_inputs decoder_inputs : Array3)
  : option (Array3 * Array3) :=
  let init_decoder_state :=
    Encoder (hidden_size model) (encoder_lstm params) encoder_inputs in
  Decoder (teacher_force model) (obs_size model)
          (decoder_lstm params) (decoder_dense params)
          decoder_inputs init_decoder_state.

(** [Seq2seq.encode] *)
Definition Seq2seq_encode (model : Seq2seq) (params : Params)
           (encoder_inputs : Array3) : Array2 :=
  let init_decoder_state :=
    Encoder (hidden_size model) (encoder_lstm params) encoder_inputs in
  let '(final_output, hidden_state) := init_decoder_state in
  final_output.

(** *** The encoder its documentation describes

    The docstring of [Encoder] ("returning state after finding the EOS token
    in the input") and the comment on [is_eos] describe a scan that stops
    updating a sample once its end-of-sequence signal was seen.  This is that
    scan, following the words of the specification: the signal of a step is
    read off the step's input by [eos_signal], the flag is raised after the
    step that consumed it, and a raised flag keeps the old state. *)

Definition spec_EncoderLSTM (eos_signal : Vec -> bool) (p : CellParams)
           (carry : (Array2 * Array2) * list bool) (x : Array2)
  : ((Array2 * Array2) * list bool) * Array2 :=
  let '(lstm_state, is_eos) := carry in
  let '(new_lstm_state, y) := LSTMCell_batch p lstm_state x in
  let carried_lstm_state :=
    (select_carried_state is_eos (fst new_lstm_state) (fst lstm_state),
     select_carried_state is_eos (snd new_lstm_state) (snd lstm_state)) in
  let is_eos := map (fun be => orb (fst be) (eos_signal (snd be)))
                    (combine is_eos x) in
  ((carried_lstm_state, is_eos), y).

Definition spec_Encoder (eos_signal : Vec -> bool) (hidden_size : nat)
           (p : CellParams) (inputs : Array3) : Array2 * Array2 :=
  let batch_size := length inputs in
  let init_carry :=
    (initialize_carry batch_size hidden_size, repeat false batch_size) in
  let '((final_state, _), _) :=
    nn_scan (spec_EncoderLSTM eos_signal p) init_carry
            (in_axes1 (shape1 inputs) inputs) in
  final_state.



End Model.
End Seq2seqModel.

(** ** Fitness values and the repertoire *)

(** A fitness is a float or the sentinel [-jnp.inf] of an empty slot. *)
Inductive Fitness : Type :=
| NegInf : Fitness
| Finite : Q -> Fitness.

(** [f == -jnp.inf] *)
Definition is_neg_inf (f : Fitness) : bool :=
  match f with
  | NegInf => true
  | Finite _ => false
  end.

Definition Qltb (a b : Q) : bool := negb (Qle_bool b a).

(** [a <= b] and [a < b] on fitness values, [-inf] below every float. *)
Definition fit_leb (a b : Fitness) : bool :=
  match a, b with
  | NegInf, _ => true
  | Finite _, NegInf => false
  | Finite x, Finite y => Qle_bool x y
  end.

Definition fit_ltb (a b : Fitness) : bool := negb (fit_leb b a).

Definition fit_le (a b : Fitness) : Prop :=
  match a, b with
  | NegInf, _ => True
  | Finite _, NegInf => False
  | Finite x, Finite y => x <= y
  end.

(** The number of occupied slots: those whose fitness is not the
    sentinel. *)
Definition occupancy (f : list Fitness) : Z :=
  Z.of_nat (length (filter (fun x => negb (is_neg_inf x)) f)).

(** [jnp.maximum(a, b)] *)
Definition fit_max (a b : Fitness) : Fitness :=
  if fit_leb a b then b else a.

(** [a + b] on fitness values. *)
Definition fit_add (a b : Fitness) : Fitness :=
  match a, b with
  | Finite x, Finite y => Finite (x + y)
  | _, _ => NegInf
  end.

(** Types the archive stores without looking inside, and the values the
    specification calls "initialization defaults" of an empty slot. *)
Class Domain : Type := {
  Genotype : Type;
  Centroids : Type;
  RNGKey : Type;
  default_genotype : Genotype;
  default_descriptor : Vec;
  default_observation : Array2
}.

(** The repertoire as the test reads it: parallel arrays over the slots and
    the scalar threshold [l_value]. *)
Record Repertoire `{Domain} : Type := {
  genotypes : list Genotype;
  centroids : Centroids;
  fitnesses : list Fitness;
  descriptors : Array2;
  observations : Array3;
  l_value : Q
}.

(** ** The archive operations (not among the source files) *)

Module Archive.
Section Archive.
Context `{Domain}.

(** One slot of the structure-of-arrays. *)
Record Slot : Type := {
  slot_genotype : Genotype;
  slot_fitness : Fitness;
  slot_descriptor : Vec;
  slot_observation : Array2
}.

Definition occupied (s : Slot) : bool := negb (is_neg_inf (slot_fitness s)).

Definition empty_slot : Slot :=
  {| slot_genotype := default_genotype;
     slot_fitness := NegInf;
     slot_descriptor := default_descriptor;
     slot_observation := default_observation |}.

(** Squared Euclidean distance of two descriptors. *)
Fixpoint sqdist (a b : Vec) : Q :=
  match a, b with
  | x :: a', y :: b' => (x - y) * (x - y) + sqdist a' b'
  | _, _ => 0
  end.

(** "Euclidean distance of [a] and [b] is below [L]": a distance is never
    negative, so this is [0 < L] and [sqdist a b < L * L]. *)
Definition dist_lt (L : Q) (a b : Vec) : bool :=
  Qltb 0 L && Qltb (sqdist a b) (L * L).

(** The nearest occupied slot of a candidate descriptor: its index and its
    squared distance; the lowest index wins a tie.  [i] is the index of the
    head of [slots], [best] the nearest slot seen so far. *)
Fixpoint nearest_from (i : nat) (d : Vec) (slots : list Slot)
         (best : option (nat * Q)) : option (nat * Q) :=
  match slots with
  | [] => best
  | s :: rest =>
      let best' :=
        if occupied s then
          let ds := sqdist d (slot_descriptor s) in
          match best with
          | None => Some (i, ds)
          | Some (_, db) => if Qltb ds db then Some (i, ds) else best
          end
        else best in
      nearest_from (S i) d rest best'
  end.

Definition nearest_occupied (d : Vec) (slots : list Slot)
  : option (nat * Q) :=
  nearest_from 0 d slots None.

(** Write [cand] into the empty slot of lowest index; [None] when the
    archive is at capacity. *)
Fixpoint write_free (cand : Slot) (slots : list Slot) : option (list Slot) :=
  match slots with
  | [] => None
  | s :: rest =>
      if occupied s then option_map (cons s) (write_free cand rest)
      else Some (cand :: rest)
  end.

(** Replace slot [i]. *)
Fixpoint replace_slot (i : nat) (cand : Slot) (slots : list Slot)
  : list Slot :=
  match slots, i with
  | [], _ => []
  | _ :: rest, O => cand :: rest
  | s :: rest, S i' => s :: replace_slot i' cand rest
  end.

(** Modelled from the spec: [Archive.insert] for one candidate (section 4.1;
    the repertoire class is not among the source files).  "If the nearest
    occupied neighbor's distance >= L (or no slot is occupied), the candidate
    is a novel point: write it into any empty slot (tie-break: lowest free
    slot index) if one exists; if no empty slot exists, the candidate is
    dropped.  If the nearest occupied neighbor's distance < L, this is a
    contested cell: the candidate replaces that neighbor only if its fitness
    is strictly greater; otherwise the candidate is dropped."  The boolean is
    the candidate's entry of [added_mask]. *)
Definition insert_one (L : Q) (slots : list Slot) (cand : Slot)
  : list Slot * bool :=
  let novel :=
    match write_free cand slots with
    | Some slots' => (slots', true)
    | None => (slots, false)
    end in
  match nearest_occupied (slot_descriptor cand) slots with
  | None => novel
  | Some (i, ds) =>
      if Qltb 0 L && Qltb ds (L * L) then
        if fit_ltb (slot_fitness (nth i slots empty_slot)) (slot_fitness cand)
        then (replace_slot i cand slots, true)
        else (slots, false)
      else novel
  end.

(** The entries of parallel arrays, slot by slot. *)
Fixpoint entries (g : list Genotype) (f : list Fitness) (d : Array2)
         (o : Array3) : list Slot :=
  match g, f, d, o with
  | gi :: g', fi :: f', di :: d', oi :: o' =>
      {| slot_genotype := gi; slot_fitness := fi;
         slot_descriptor := di; slot_observation := oi |}
      :: entries g' f' d' o'
  | _, _, _, _ => []
  end.

Definition occupied_entries (r : Repertoire) : list Slot :=
  filter occupied
         (entries (genotypes r) (fitnesses r) (descriptors r)
                  (observations r)).

(** Modelled from the spec: [repertoire.init(genotypes, centroids,
    fitnesses, descriptors, observations, l_value)], the operation the
    specification calls [Archive.rebuild] (section 4.1; the repertoire class is
    not among the source files).  "Starts from an all-empty archive of the
    same capacity and threshold L, then performs insert with every
    previously-occupied entry's genotype/fitness/observation paired with its
    freshly computed descriptor", in ascending order of the original slot
    index, one entry after the other ("whichever is processed first wins if
    it has >= fitness, else the later processed entry with strictly greater
    fitness wins"). *)
Definition rebuild_slots (L : Q) (capacity : nat) (cands : list Slot)
  : list Slot :=
  fold_left (fun slots cand => fst (insert_one L slots cand))
            (filter occupied cands) (repeat empty_slot capacity).

Definition repertoire_init (g : list Genotype) (c : Centroids)
           (f : list Fitness) (d : Array2) (o : Array3) (L : Q)
  : Repertoire :=
  let slots := rebuild_slots L (length f) (entries g f d o) in
  {| genotypes := map slot_genotype slots;
     centroids := c;
     fitnesses := map slot_fitness slots;
     descriptors := map slot_descriptor slots;
     observations := map slot_observation slots;
     l_value := L |}.




(** No entry of [es] lies at a distance below [L] of an entry before it
    in [earlier ++ es]. *)
Fixpoint far_apart_from (L : Q) (earlier es : list Slot) : bool :=
  match es with
  | [] => true
  | e :: es' =>
      forallb (fun s => negb (dist_lt L (slot_descriptor e)
                                      (slot_descriptor s))) earlier
      && far_apart_from L (earlier ++ [e]) es'
  end.

Definition far_apart (L : Q) (es : list Slot) : bool :=
  far_apart_from L [] es.

End Archive.
End Archive.

(** ** jnp integers (int32) *)

Definition wrap32 (z : Z) : Z := ((z + 2 ^ 31) mod 2 ^ 32 - 2 ^ 31)%Z.

(** [jnp.sum(mask)] of a boolean array. *)
Definition jnp_sum_bool (mask : list bool) : Z :=
  fold_left (fun acc (b : bool) => wrap32 (acc + (if b then 1 else 0))) mask 0%Z.

(** [jnp.arange(start, stop, step)] for a positive step. *)
Definition ceil_div (a b : Z) : Z := (- ((- a) / b))%Z.

Definition jnp_arange (start stop step : Z) : list Z :=
  map (fun k => (start + Z.of_nat k * step)%Z)
      (seq 0 (Z.to_nat (ceil_div (stop - start) step))).

(** [jnp.cumsum]; [acc] is the sum so far. *)
Fixpoint cumsum_from (acc : Z) (l : list Z) : list Z :=
  match l with
  | [] => []
  | x :: l' => let s := wrap32 (acc + x) in s :: cumsum_from s l'
  end.

Definition jnp_cumsum (l : list Z) : list Z := cumsum_from 0 l.

(** [x in a] for an integer array [a]. *)
Definition jnp_contains (x : Z) (a : list Z) : bool := existsb (Z.eqb x) a.

(** ** tests/core_test/aurora_test.py *)

(** What [metrics_fn] returns. *)
Record MetricsDict : Type := {
  qd_score : Fitness;
  max_fitness : Fitness;
  coverage : Q
}.

(** [jnp.sum(a, where=mask)] *)
Fixpoint jnp_sum_where (a : list Fitness) (mask : list bool) : Fitness :=
  match a, mask with
  | x :: a', m :: mask' =>
      if m then fit_add x (jnp_sum_where a' mask') else jnp_sum_where a' mask'
  | _, _ => Finite 0
  end.

(** The sum of the fitnesses of the occupied slots, in the order
    [jnp_sum_where] adds them. *)
Fixpoint sum_occupied (a : list Fitness) : Q :=
  match a with
  | [] => 0
  | NegInf :: a' => sum_occupied a'
  | Finite q :: a' => q + sum_occupied a'
  end.

(** [jnp.sum(1.0 - mask)] and [jnp.mean(1.0 - mask)] *)
Definition jnp_sum_complement (mask : list bool) : Q :=
  fold_right (fun (b : bool) acc => (if b then 0 else 1) + acc) 0 mask.

Definition jnp_mean_complement (mask : list bool) : Q :=
  jnp_sum_complement mask / inject_Z (Z.of_nat (length mask)).

(** [jnp.max(a)]; it raises on an array of size zero. *)
Definition jnp_max (a : list Fitness) : option Fitness :=
  match a with
  | [] => None
  | x :: a' => Some (fold_left fit_max a' x)
  end.

(** The collaborators of the test that are not among the source files:
    [AURORA.update] (one generation: emit, score, encode, insert, metrics),
    [train_seq2seq.lstm_ae_train] (the opaque trainer, returning params, mean
    and std), [jax.random.split], the table [environments.reward_offset] at
    the test's [env_name], and the module [train_seq2seq.get_model] returns. *)
Class Aurora `{Linen} `{Domain} : Type := {
  aurora_update :
    Repertoire -> RNGKey -> Params -> Vec -> Vec ->
    (Repertoire * MetricsDict) * RNGKey;
  lstm_ae_train :
    RNGKey -> Repertoire -> Params -> Z -> nat -> (Params * Vec) * Vec;
  jax_random_split : RNGKey -> RNGKey * RNGKey;
  reward_offset : Q;
  model : Seq2seqModel.Seq2seq
}.

Module AuroraTest.

(** Local constants of [test_aurora]. *)
Definition episode_length : Z := 100.
Definition num_centroids : nat := 50.
Definition hidden_size : nat := 5.
Definition l_value_init : Q := 2 # 10.
Definition log_freq : Z := 5.
Definition default_update_base : Z := 10.
Definition n_target : Z := 1024.

(** "design aurora's schedule":
    [update_base = int(jnp.ceil(default_update_base / log_freq))],
    [schedules = jnp.cumsum(jnp.arange(update_base, 1000, update_base))].
    The ceiling is that of the exact quotient, which the floating point
    quotient of the code is for the test's values (10 / 5 = 2.0); where the
    float32 quotient of other values rounds to a whole number, the code's
    [update_base] is that number. *)
Definition design_schedule (default_update_base log_freq : Z) : list Z :=
  let update_base := ceil_div default_update_base log_freq in
  jnp_cumsum (jnp_arange update_base 1000 update_base).

(** The threshold update of the controller branch:
    [current_error], [change_rate], [prop_gain = 1 * 10e-6], [l_value];
    returns the new [l_value] and the new [previous_error]. *)
Definition prop_gain : Q := 1 * (10 # 1000000).

Definition cvc_update (l_value : Q) (num_indivs previous_error : Z) : Q * Z :=
  let current_error := wrap32 (num_indivs - n_target) in
  let change_rate := wrap32 (current_error - previous_error) in
  let l_value :=
    l_value
    + (prop_gain * inject_Z current_error)
    + (prop_gain * inject_Z change_rate) in
  (l_value, current_error).

(** The control law in the words of the specification (section 4.2), before
    its clamp: [error = archive_occupancy - target_count],
    [delta = error - previous_error], new threshold
    [L + gain * error + gain * delta] with one gain for both terms,
    [previous_error <- error]; over unbounded integers. *)
Definition spec_controller_step (gain : Q) (target_count : Z) (L : Q)
           (previous_error archive_occupancy : Z) : Q * Z :=
  let error := (archive_occupancy - target_count)%Z in
  let delta := (error - previous_error)%Z in
  (L + gain * inject_Z error + gain * inject_Z delta, error).

(** [(observations - mean) / std], broadcast over the last axis. *)
Fixpoint normalize_row (x mean std : Vec) : Vec :=
  match x, mean, std with
  | xi :: x', m :: mean', s :: std' =>
      ((xi - m) / s) :: normalize_row x' mean' std'
  | _, _, _ => []
  end.

Definition normalize (observations : Array3) (mean std : Vec) : Array3 :=
  map (map (fun row => normalize_row row mean std)) observations.

Section Test.
Context `{Aurora}.
Variable batch_size : Z.

Import StateErr.
Local Open Scope staterr_scope.

(** *** metrics_fn

    The function reads the attributes of the repertoire it is handed; the
    repertoire is the state of the computation. *)
Definition metrics_fn : M Repertoire MetricsDict :=
  f <- gets fitnesses ;;
  let grid_empty := map is_neg_inf f in
  f <- gets fitnesses ;;
  let qd_score := jnp_sum_where f (map negb grid_empty) in
  let qd_score :=
    fit_add qd_score
            (Finite (reward_offset * inject_Z episode_length
                     * jnp_sum_complement grid_empty)) in
  let coverage := 100 * jnp_mean_complement grid_empty in
  f <- gets fitnesses ;;
  max_fitness <- lift_option (jnp_max f) ;;
  ret {| qd_score := qd_score;
         max_fitness := max_fitness;
         coverage := coverage |}.

(** *** The model state and the encoding of observations

    [normalized_observations = (observations - mean) / std] and
    [model.apply({"params": params}, normalized_observations,
    method=model.encode)], as a computation over the model state. *)
Record ModelState : Type := {
  ms_params : Params;
  ms_mean : Vec;
  ms_std : Vec
}.

Definition encode (observations : Array3) : M ModelState Array2 :=
  params <- gets ms_params ;;
  mean <- gets ms_mean ;;
  std <- gets ms_std ;;
  let normalized_observations := normalize observations mean std in
  ret (Seq2seqModel.Seq2seq_encode model params normalized_observations).

(** *** The main loop *)

(** The variables the loop reads or assigns. *)
Record LoopState : Type := {
  repertoire : Repertoire;
  random_key : RNGKey;
  model_params : Params;
  mean_observations : Vec;
  std_observations : Vec;
  metrics : list MetricsDict;
  num_iterations : Z;
  current_step_estimation : Z;
  previous_error : Z;
  iteration : Z;
  schedules : list Z
}.

Definition update_scan_fn
           (carry : Repertoire * RNGKey * Params * Vec * Vec) (unused : unit)
  : (Repertoire * RNGKey * Params * Vec * Vec) * MetricsDict :=
  let '(repertoire, random_key, model_params, mean_observations,
        std_observations) := carry in
  let '(repertoire, metrics, random_key) :=
    aurora_update repertoire random_key model_params mean_observations
                  std_observations in
  ((repertoire, random_key, model_params, mean_observations,
    std_observations), metrics).

(** One generation as the scan body sees it: [aurora.update] on the
    repertoire and the key, under fixed params, mean and std. *)
Definition one_update (p : Params) (m s : Vec) (rk : Repertoire * RNGKey)
  : Repertoire * RNGKey :=
  let '(r', _, k') := aurora_update (fst rk) (snd rk) p m s in (r', k').

(** The state after [jax.lax.scan(update_scan_fn, ..., length=log_freq)] and
    the two assignments that follow it. *)
Definition after_scan (st : LoopState) : LoopState :=
  let '((repertoire, random_key, model_params, mean_observations,
         std_observations), metrics) :=
    nn_scan update_scan_fn
            (repertoire st, random_key st, model_params st,
             mean_observations st, std_observations st)
            (repeat tt (Z.to_nat log_freq)) in
  {| repertoire := repertoire;
     random_key := random_key;
     model_params := model_params;
     mean_observations := mean_observations;
     std_observations := std_observations;
     metrics := metrics;
     num_iterations := iteration st * log_freq;
     current_step_estimation :=
       current_step_estimation st + batch_size * episode_length * log_freq;
     previous_error := previous_error st;
     iteration := iteration st;
     schedules := schedules st |}.

(** [if (iteration + 1) in schedules:] retrain the autoencoder and re-add
    every entry with its new descriptor. *)
Definition retrain_branch (st : LoopState) : LoopState :=
  let '(random_key, subkey) := jax_random_split (random_key st) in
  let '(model_params, mean_observations, std_observations) :=
    lstm_ae_train subkey (repertoire st) (model_params st) (iteration st)
                  hidden_size in
  let normalized_observations :=
    normalize (observations (repertoire st)) mean_observations
              std_observations in
  let new_descriptors :=
    Seq2seqModel.Seq2seq_encode model model_params normalized_observations in
  let repertoire :=
    Archive.repertoire_init
      (genotypes (repertoire st)) (centroids (repertoire st))
      (fitnesses (repertoire st)) new_descriptors
      (observations (repertoire st)) (l_value (repertoire st)) in
  {| repertoire := repertoire;
     random_key := random_key;
     model_params := model_params;
     mean_observations := mean_observations;
     std_observations := std_observations;
     metrics := metrics st;
     num_iterations := num_iterations st;
     current_step_estimation := current_step_estimation st;
     previous_error := previous_error st;
     iteration := iteration st;
     schedules := schedules st |}.

(** [elif iteration % 2 == 0:] the controller of the threshold. *)
Definition controller_branch (st : LoopState) : LoopState :=
  let num_indivs :=
    jnp_sum_bool (map (fun f => negb (is_neg_inf f))
                      (fitnesses (repertoire st))) in
  let '(l_value', current_error) :=
    cvc_update (l_value (repertoire st)) num_indivs (previous_error st) in
  let repertoire :=
    Archive.repertoire_init
      (genotypes (repertoire st)) (centroids (repertoire st))
      (fitnesses (repertoire st)) (descriptors (repertoire st))
      (observations (repertoire st)) l_value' in
  {| repertoire := repertoire;
     random_key := random_key st;
     model_params := model_params st;
     mean_observations := mean_observations st;
     std_observations := std_observations st;
     metrics := metrics st;
     num_iterations := num_iterations st;
     current_step_estimation := current_step_estimation st;
     previous_error := current_error;
     iteration := iteration st;
     schedules := schedules st |}.

(** Which branch of the [if]/[elif] one pass of the loop takes. *)
Inductive Branch : Type := Retrain | Controller | Neither.

Definition branch_taken (iteration : Z) (schedules : list Z) : Branch :=
  if jnp_contains (iteration + 1) schedules then Retrain
  else if (iteration mod 2 =? 0)%Z then Controller
  else Neither.

(** One pass of the body of [while iteration < num_iterations]. *)
Definition loop_body (st : LoopState) : LoopState :=
  let st := after_scan st in
  match branch_taken (iteration st) (schedules st) with
  | Retrain => retrain_branch st
  | Controller => controller_branch st
  | Neither => st
  end.

(** The loop; [None] when [fuel] passes do not reach its exit. *)
Fixpoint main_loop (fuel : nat) (st : LoopState) : option LoopState :=
  if (iteration st <? num_iterations st)%Z then
    match fuel with
    | O => None
    | S fuel' => main_loop fuel' (loop_body st)
    end
  else Some st.

(** The variables as the lines before the loop leave them, given what
    [aurora.init] and the first call of the trainer returned. *)
Definition initial_state (repertoire : Repertoire) (random_key : RNGKey)
           (model_params : Params) (mean_observations std_observations : Vec)
  : LoopState :=
  {| repertoire := repertoire;
     random_key := random_key;
     model_params := model_params;
     mean_observations := mean_observations;
     std_observations := std_observations;
     metrics := [];
     num_iterations := 0;
     current_step_estimation := 0;
     previous_error :=
       wrap32 (jnp_sum_bool (map (fun f => negb (is_neg_inf f))
                                 (fitnesses repertoire)) - n_target);
     iteration := 1;
     schedules := design_schedule default_update_base log_freq |}.

End Test.
End AuroraTest.

(** ** Concrete collaborators and inputs

    Small instances of the collaborator classes, on which the definitions
    above run by computation. *)

Module Samples.

(** A cell that counts how often it was applied: every coordinate of [c]
    grows by one, [h] is kept, the output is the new [c]. *)
Definition counting_linen : Linen :=
  {| CellParams := unit;
     DenseParams := unit;
     LSTMCell := fun _ st _ =>
                   let c := map (Qplus 1) (fst st) in ((c, snd st), c);
     Dense := fun _ _ y => y |}.

(** The end-of-sequence signal of the commented-out line
    [is_eos = jnp.logical_or(is_eos, x[:, 8])]: feature 8 is set. *)
Definition eos_feature8 (x : Vec) : bool := negb (Qeq_bool (nth 8 x 0) 0).

Definition token (v : Q) : Vec := [v; 0; 0; 0; 0; 0; 0; 0; 0].
Definition eos_token : Vec := [0; 0; 0; 0; 0; 0; 0; 0; 1].
Definition pad_token : Vec := [0; 0; 0; 0; 0; 0; 0; 0; 0].

(** A batch of one sample of length four, padded after its second step. *)
Definition padded_batch : Array3 :=
  [[token 1; eos_token; pad_token; pad_token]].

(** Genotypes are numbers; keys and centroids carry nothing. *)
Definition sample_domain : Domain :=
  {| Genotype := Z;
     Centroids := unit;
     RNGKey := unit;
     default_genotype := 0%Z;
     default_descriptor := [0];
     default_observation := [[0]] |}.

Definition sample_params : @Params counting_linen :=
  @Build_Params counting_linen tt tt tt.

(** An update that leaves the repertoire alone and a trainer that returns
    the params with mean 0 and std 1. *)
Definition sample_aurora : @Aurora counting_linen sample_domain :=
  @Build_Aurora counting_linen sample_domain
    (fun r k _ _ _ =>
       ((r, {| qd_score := Finite 0; max_fitness := NegInf; coverage := 0 |}),
        k))
    (fun _ _ p _ _ => ((p, [0]), [1]))
    (fun k => (k, k))
    0
    {| Seq2seqModel.teacher_force := true;
       Seq2seqModel.hidden_size := 1;
       Seq2seqModel.obs_size := 1 |}.

(** A repertoire of three slots, two of them occupied, with descriptors
    [0] and [d], and the threshold the test starts from. *)
Definition sample_repertoire (d : Q) : @Repertoire sample_domain :=
  @Build_Repertoire sample_domain
    [11; 22; 0]%Z                      (* genotypes *)
    tt                                 (* centroids *)
    [Finite 1; Finite 2; NegInf]       (* fitnesses *)
    [[0]; [d]; [0]]                    (* descriptors *)
    [[[1]]; [[2]]; [[0]]]              (* observations *)
    AuroraTest.l_value_init.           (* l_value *)

(** The variables of the loop before its first pass, over such a
    repertoire. *)
Definition sample_state (d : Q)
  : @AuroraTest.LoopState counting_linen sample_domain :=
  @AuroraTest.initial_state counting_linen sample_domain
    (sample_repertoire d) tt sample_params [0] [1].

End Samples.

(* ================================================================== *)
(** * Part II: properties                                              *)
(* ================================================================== *)

(** ** Scans and array lemmas *)

Lemma nn_scan_carry_cons (C X Y : Type) (body : C -> X -> C * Y)
      (carry : C) (x : X) (xs : list X) :
  fst (nn_scan body carry (x :: xs)) = fst (nn_scan body (fst (body carry x)) xs).
Proof.
  simpl. destruct (body carry x) as [carry' y]. simpl.
  destruct (nn_scan body carry' xs). reflexivity.
Qed.

Lemma nn_scan_outputs_cons (C X Y : Type) (body : C -> X -> C * Y)
      (carry : C) (x : X) (xs : list X) :
  snd (nn_scan body carry (x :: xs))
  = snd (body carry x) :: snd (nn_scan body (fst (body carry x)) xs).
Proof.
  simpl. destruct (body carry x) as [carry' y]. simpl.
  destruct (nn_scan body carry' xs). reflexivity.
Qed.

Module Seq2seqFacts.
Section Facts.
Context `{Linen}.
Import Seq2seqModel.











(** Every step of the decoder scan returns its logits twice. *)
Lemma decoder_scan_outputs_twice (tf : bool) (obs : nat) (pc : CellParams)
      (pd : DenseParams) :
  forall (xs : list Array2) (carry : (Array2 * Array2) * Array2),
    map fst (snd (nn_scan (DecoderLSTM tf obs pc pd) carry xs))
    = map snd (snd (nn_scan (DecoderLSTM tf obs pc pd) carry xs)).
Proof.
  induction xs as [|x xs IH]; intros carry; [reflexivity|].
  rewrite nn_scan_outputs_cons. simpl map. rewrite IH. f_equal.
  unfold DecoderLSTM. destruct carry as [lstm_state last_prediction].
  destruct (LSTMCell_batch pc lstm_state _). reflexivity.
Qed.

(** C9.  The two outputs of the decoder are the same array: every step of
    [DecoderLSTM] returns its logits in both positions, and [Decoder]
    returns the two stacks of them, so the predictions are the logits, for
    every input on which the decoder returns (it raises only on an input
    with an empty time axis). *)
Theorem Decoder_predictions_are_logits (tf : bool) (obs : nat)
        (pc : CellParams) (pd : DenseParams) :
  (forall (carry : (Array2 * Array2) * Array2) (x : Array2),
      fst (snd (DecoderLSTM tf obs pc pd carry x))
      = snd (snd (DecoderLSTM tf obs pc pd carry x)))
  /\ (forall (inputs : Array3) (init_state : Array2 * Array2),
         match Decoder tf obs pc pd inputs init_state with
         | Some (logits, predictions) => logits = predictions
         | None => shape1 inputs = 0%nat
         end).
Proof.
  split.
  - intros [lstm_state last_prediction] x. unfold DecoderLSTM.
    destruct (LSTMCell_batch pc lstm_state _). reflexivity.
  - intros inputs init_state. unfold Decoder.
    destruct (shape1 inputs) as [|T] eqn:HT; [reflexivity|].
    pose proof (decoder_scan_outputs_twice tf obs pc pd
                  (in_axes1 (S T) inputs) (init_state, column0 inputs))
      as Htwice.
    destruct (nn_scan _ _ _) as [final ys]. simpl in Htwice.
    now rewrite Htwice.
Qed.

End Facts.
End Seq2seqFacts.

(** C3.  On the padded batch [Samples.padded_batch], whose only sample signals
    its end at the second of four steps, the encoder of the source applies the
    cell at all four steps (the counting cell ends at 4), while the encoder its
    docstring describes stops after the step that consumed the signal and
    holds the state (the counting cell ends at 2). *)
Theorem Encoder_runs_past_eos :
  @Seq2seqModel.Encoder Samples.counting_linen 1 tt Samples.padded_batch
  = ([[4]], [[0]])
  /\ @Seq2seqModel.spec_Encoder Samples.counting_linen Samples.eos_feature8
                                1 tt Samples.padded_batch
     = ([[2]], [[0]]).
Proof. split; vm_compute; reflexivity. Qed.

(** ** int32 arithmetic and the schedule *)

Module ScheduleFacts.
Import AuroraTest.
Local Open Scope Z_scope.

Lemma wrap32_small (z : Z) : - 2 ^ 31 <= z < 2 ^ 31 -> wrap32 z = z.
Proof.
  intros Hz. unfold wrap32. rewrite Z.mod_small; lia.
Qed.

Lemma jnp_sum_bool_from (mask : list bool) :
  forall acc : Z,
    0 <= acc -> acc + Z.of_nat (length mask) < 2 ^ 31 ->
    fold_left (fun a (b : bool) => wrap32 (a + (if b then 1 else 0))) mask acc
    = acc + Z.of_nat (count_occ bool_dec mask true).
Proof.
  induction mask as [|b mask IH]; intros acc Hacc Hbound.
  - simpl. lia.
  - cbn [fold_left]. rewrite wrap32_small by (destruct b; simpl in *; lia).
    rewrite IH by (destruct b; simpl length in *; lia).
    destruct b; simpl; lia.
Qed.

(** Below the int32 range the sum of a mask is the number of its [True]s. *)
Lemma jnp_sum_bool_count (mask : list bool) :
  Z.of_nat (length mask) < 2 ^ 31 ->
  jnp_sum_bool mask = Z.of_nat (count_occ bool_dec mask true).
Proof.
  intros Hlen. unfold jnp_sum_bool. rewrite jnp_sum_bool_from; lia.
Qed.

Lemma count_occ_le_length (mask : list bool) :
  (count_occ bool_dec mask true <= length mask)%nat.
Proof.
  induction mask as [|b mask IH]; simpl; [lia|].
  destruct (bool_dec b true); simpl; lia.
Qed.

Lemma ceil_div_positive (a b : Z) : 0 < a -> 0 < b -> 1 <= ceil_div a b.
Proof.
  intros Ha Hb. unfold ceil_div.
  assert ((- a) / b < 0) by (apply Z.div_lt_upper_bound; lia). lia.
Qed.

Lemma below_ceil_div (k d s : Z) : 0 < s -> k < ceil_div d s -> k * s < d.
Proof.
  unfold ceil_div. intros Hs Hk.
  assert (Hq : (- d) / s < - k) by lia.
  assert (Hm := Z.mul_div_le (- d) s Hs).
  assert (Hr := Z.mod_pos_bound (- d) s Hs).
  assert (Hd := Z.div_mod (- d) s ltac:(lia)).
  nia.
Qed.

Lemma ceil_div_le (d s : Z) : 0 <= d -> 1 <= s -> ceil_div d s <= d.
Proof.
  unfold ceil_div. intros Hd Hs.
  assert (- d <= (- d) / s); [|lia].
  apply Z.div_le_lower_bound; nia.
Qed.

(** The elements of [jnp.arange(start, stop, step)] lie in
    [start, stop). *)
Lemma jnp_arange_bounds (start stop step : Z) :
  0 < step ->
  Forall (fun x => start <= x < stop) (jnp_arange start stop step).
Proof.
  intros Hstep. unfold jnp_arange. apply Forall_map, Forall_forall.
  intros k Hk. apply in_seq in Hk.
  assert (Z.of_nat k < ceil_div (stop - start) step) by lia.
  pose proof (@below_ceil_div (Z.of_nat k) (stop - start) step Hstep H) as Hb.
  nia.
Qed.

Lemma jnp_arange_length (start stop step : Z) :
  1 <= step -> start <= stop ->
  Z.of_nat (length (jnp_arange start stop step)) <= stop - start.
Proof.
  intros Hstep Hle. unfold jnp_arange. rewrite length_map, length_seq.
  pose proof (@ceil_div_le (stop - start) step). lia.
Qed.

(** A cumulative sum of positive increments that stays inside int32 is
    strictly increasing, and above the sum it started from. *)
Lemma cumsum_from_increasing (m : Z) (l : list Z) :
  forall acc : Z,
    Forall (fun x => 0 < x < m) l ->
    0 <= acc -> acc + m * Z.of_nat (length l) < 2 ^ 31 ->
    StronglySorted Z.lt (cumsum_from acc l)
    /\ Forall (fun s => acc < s) (cumsum_from acc l).
Proof.
  induction l as [|x l IH]; intros acc Hall Hacc Hbound.
  - simpl. split; constructor.
  - inversion Hall as [|? ? Hx Hrest]; subst.
    cbn [cumsum_from]. cbv zeta.
    assert (Hw : wrap32 (acc + x) = acc + x).
    { apply wrap32_small. simpl length in Hbound. nia. }
    rewrite Hw.
    destruct (IH (acc + x)) as [Hsorted Habove]; auto; try lia.
    { simpl length in Hbound. nia. }
    split.
    + constructor; assumption.
    + constructor; [lia|].
      eapply Forall_impl; [|exact Habove]. simpl. intros; lia.
Qed.

(** The schedule of the test, for any positive base interval and log
    frequency, increases strictly. *)
Lemma design_schedule_increasing (base freq : Z) :
  0 < base -> 0 < freq -> StronglySorted Z.lt (design_schedule base freq).
Proof.
  intros Hbase Hfreq. unfold design_schedule, jnp_cumsum. cbv zeta.
  pose proof (@ceil_div_positive base freq Hbase Hfreq) as Hub.
  set (update_base := ceil_div base freq) in *.
  destruct (Z_lt_le_dec update_base 1000) as [Hlt|Hge].
  - apply (cumsum_from_increasing (m := 1000)); try lia.
    + eapply Forall_impl; [|apply jnp_arange_bounds; lia].
      simpl. intros; lia.
    + pose proof (@jnp_arange_length update_base 1000 update_base). lia.
  - assert (Hempty : jnp_arange update_base 1000 update_base = []).
    { unfold jnp_arange.
      assert (ceil_div (1000 - update_base) update_base <= 0).
      { unfold ceil_div.
        assert (0 <= (- (1000 - update_base)) / update_base); [|lia].
        apply Z.div_pos; lia. }
      replace (Z.to_nat _) with 0%nat by lia. reflexivity. }
    rewrite Hempty. constructor.
Qed.

End ScheduleFacts.

(** ** The archive operations *)

Module ArchiveFacts.
Section Facts.
Context `{Domain}.
Import Archive.

Lemma occupied_empty_slot : occupied empty_slot = false.
Proof. reflexivity. Qed.

(** *** Insertion writes nothing but the candidate *)






Lemma entries_of_slots (slots : list Slot) :
  entries (map slot_genotype slots) (map slot_fitness slots)
          (map slot_descriptor slots) (map slot_observation slots)
  = slots.
Proof.
  induction slots as [|[g f d o] slots IH]; simpl; [reflexivity|].
  now rewrite IH.
Qed.

Lemma occupied_entries_init (g : list Genotype) (c : Centroids)
      (f : list Fitness) (d : Array2) (o : Array3) (L : Q) :
  occupied_entries (repertoire_init g c f d o L)
  = filter occupied (rebuild_slots L (length f) (entries g f d o)).
Proof.
  unfold occupied_entries, repertoire_init. cbn.
  now rewrite entries_of_slots.
Qed.



(** *** Rebuilding entries that are far apart *)

Lemma nearest_from_source (d : Vec) :
  forall (slots : list Slot) (i : nat) (best : option (nat * Q))
         (j : nat) (dj : Q),
    nearest_from i d slots best = Some (j, dj) ->
    best = Some (j, dj)
    \/ exists s, In s slots /\ occupied s = true
                 /\ dj = sqdist d (slot_descriptor s).
Proof.
  induction slots as [|s rest IH]; intros i best j dj Hn; simpl in Hn.
  - now left.
  - apply IH in Hn. destruct Hn as [Hbest|[s' [Hin [Hocc Hd]]]].
    + destruct (occupied s) eqn:Hocc; [|now left].
      destruct best as [[b db]|].
      * destruct (Qltb _ db); [|now left].
        injection Hbest as <- <-. right. exists s. simpl. auto.
      * injection Hbest as <- <-. right. exists s. simpl. auto.
    + right. exists s'. simpl. auto.
Qed.

Lemma write_free_after_occupied (cand : Slot) (rest : list Slot) :
  forall done : list Slot,
    forallb occupied done = true ->
    write_free cand (done ++ empty_slot :: rest)
    = Some (done ++ cand :: rest).
Proof.
  induction done as [|s done IH]; intros Hdone; simpl in *; [reflexivity|].
  apply andb_prop in Hdone. destruct Hdone as [Hs Hdone].
  rewrite Hs, IH by assumption. reflexivity.
Qed.

(** A candidate that is far from every occupied slot is novel: it goes to
    the free slot of lowest index. *)
Lemma insert_one_far (L : Q) (cand : Slot) (done : list Slot) (k : nat) :
  forallb occupied done = true ->
  forallb (fun s => negb (dist_lt L (slot_descriptor cand)
                                  (slot_descriptor s))) done = true ->
  fst (insert_one L (done ++ repeat empty_slot (S k)) cand)
  = (done ++ [cand]) ++ repeat empty_slot k.
Proof.
  intros Hocc Hfar. unfold insert_one. cbn [repeat].
  rewrite write_free_after_occupied by assumption.
  rewrite <- app_assoc. cbn [app].
  destruct (nearest_occupied _ _) as [[i ds]|] eqn:Hn; [|reflexivity].
  apply nearest_from_source in Hn.
  destruct Hn as [Hbest|[s [Hin [Hs Hd]]]]; [discriminate|].
  apply in_app_or in Hin. destruct Hin as [Hin|Hin].
  - rewrite forallb_forall in Hfar. specialize (Hfar s Hin).
    unfold dist_lt in Hfar. rewrite <- Hd in Hfar.
    apply negb_true_iff in Hfar. rewrite Hfar. reflexivity.
  - assert (s = empty_slot).
    { destruct Hin as [<-|Hin]; [reflexivity|].
      now apply repeat_spec in Hin. }
    subst s. rewrite occupied_empty_slot in Hs. discriminate.
Qed.

Lemma rebuild_fold_far (L : Q) :
  forall (es done : list Slot) (k : nat),
    forallb occupied done = true ->
    forallb occupied es = true ->
    far_apart_from L done es = true ->
    fold_left (fun slots cand => fst (insert_one L slots cand)) es
              (done ++ repeat empty_slot (length es + k))
    = (done ++ es) ++ repeat empty_slot k.
Proof.
  induction es as [|e es IH]; intros done k Hdone Hes Hfar.
  - simpl. now rewrite app_nil_r.
  - simpl in Hes, Hfar. apply andb_prop in Hes. destruct Hes as [He Hes].
    apply andb_prop in Hfar. destruct Hfar as [Hfare Hfar].
    cbn [fold_left length Nat.add].
    rewrite insert_one_far by assumption.
    rewrite IH; auto.
    + now rewrite <- (app_assoc done [e] es).
    + rewrite forallb_app, Hdone. simpl. now rewrite He.
Qed.

Lemma entries_length (g : list Genotype) :
  forall (f : list Fitness) (d : Array2) (o : Array3),
    (length (entries g f d o) <= length f)%nat.
Proof.
  induction g as [|gi g IH]; intros [|fi f] [|di d] [|oi o];
    simpl; try lia.
  specialize (IH f d o). lia.
Qed.

Lemma filter_occupied_all (es : list Slot) :
  forallb occupied (filter occupied es) = true.
Proof.
  induction es as [|e es IH]; simpl; [reflexivity|].
  destruct (occupied e) eqn:He; simpl; [now rewrite He|assumption].
Qed.

Lemma filter_occupied_id (es : list Slot) (k : nat) :
  forallb occupied es = true ->
  filter occupied (es ++ repeat empty_slot k) = es.
Proof.
  intros Hes. rewrite filter_app.
  assert (Hempty : filter occupied (repeat empty_slot k) = []).
  { induction k; simpl; auto. }
  rewrite Hempty, app_nil_r.
  induction es as [|e es IH]; simpl in *; [reflexivity|].
  apply andb_prop in Hes. destruct Hes as [He Hes].
  rewrite He. f_equal. auto.
Qed.

(** Rebuilding an archive under a threshold at which its occupied entries
    are far apart keeps these entries, in their order. *)
Lemma occupied_entries_init_far (r : Repertoire) (L : Q) :
  far_apart L (occupied_entries r) = true ->
  occupied_entries
    (repertoire_init (genotypes r) (centroids r) (fitnesses r)
                     (descriptors r) (observations r) L)
  = occupied_entries r.
Proof.
  intros Hfar. rewrite occupied_entries_init.
  unfold rebuild_slots, far_apart, occupied_entries in *.
  set (es := filter occupied _) in *.
  assert (Hle : (length es <= length (fitnesses r))%nat).
  { unfold es. etransitivity; [apply filter_length_le|].
    apply entries_length. }
  replace (length (fitnesses r))
    with (length es + (length (fitnesses r) - length es))%nat by lia.
  pose proof (@rebuild_fold_far L es [] (length (fitnesses r) - length es)
                eq_refl (filter_occupied_all _) Hfar) as Hfold.
  cbn [app] in Hfold. rewrite Hfold.
  apply filter_occupied_id, filter_occupied_all.
Qed.

(** *** Well-formed archives *)







(** *** The rebuild returns well-formed archives *)










End Facts.
End ArchiveFacts.

(** ** Fitness values and [jnp.max] *)

Module FitnessFacts.

Lemma fit_leb_le (a b : Fitness) : fit_leb a b = true <-> fit_le a b.
Proof.
  destruct a as [|x], b as [|y]; simpl; try tauto.
  - split; [discriminate|contradiction].
  - apply Qle_bool_iff.
Qed.

Lemma fit_le_refl (a : Fitness) : fit_le a a.
Proof. destruct a; simpl; [exact I|apply Qle_refl]. Qed.

Lemma fit_le_trans (a b c : Fitness) : fit_le a b -> fit_le b c -> fit_le a c.
Proof.
  destruct a, b, c; simpl; try tauto. apply Qle_trans.
Qed.

Lemma fit_leb_false (a b : Fitness) : fit_leb a b = false -> fit_le b a.
Proof.
  destruct a as [|x], b as [|y]; simpl; try discriminate; try tauto.
  intros Hxy. destruct (Qlt_le_dec y x) as [Hlt|Hle].
  - now apply Qlt_le_weak.
  - apply Qle_bool_iff in Hle. congruence.
Qed.

Lemma fit_max_upper (a b : Fitness) :
  fit_le a (fit_max a b) /\ fit_le b (fit_max a b).
Proof.
  unfold fit_max. destruct (fit_leb a b) eqn:Hab.
  - split; [now apply fit_leb_le|apply fit_le_refl].
  - split; [apply fit_le_refl|now apply fit_leb_false].
Qed.

Lemma fit_max_either (a b : Fitness) : fit_max a b = a \/ fit_max a b = b.
Proof. unfold fit_max. destruct (fit_leb a b); auto. Qed.

(** The fold of [jnp.maximum] returns an element that is above all. *)
Lemma fold_fit_max_spec :
  forall (t : list Fitness) (x : Fitness),
    In (fold_left fit_max t x) (x :: t)
    /\ Forall (fun f => fit_le f (fold_left fit_max t x)) (x :: t).
Proof.
  induction t as [|y t IH]; intros x.
  - simpl. split; [now left|]. constructor; [apply fit_le_refl|constructor].
  - cbn [fold_left]. destruct (IH (fit_max x y)) as [Hin Hall].
    inversion Hall as [|? ? Hm Ht]; subst.
    destruct (fit_max_upper x y) as [Hx Hy].
    split.
    + destruct Hin as [Hin|Hin].
      * rewrite <- Hin.
        destruct (fit_max_either x y) as [E|E]; rewrite E; simpl; auto.
      * right. now right.
    + constructor; [eapply fit_le_trans; eauto|].
      constructor; [eapply fit_le_trans; eauto|assumption].
Qed.

Lemma jnp_max_spec (a : list Fitness) (m : Fitness) :
  jnp_max a = Some m -> In m a /\ Forall (fun f => fit_le f m) a.
Proof.
  destruct a as [|x t]; simpl; [discriminate|].
  intros Hm. injection Hm as <-. apply fold_fit_max_spec.
Qed.

Lemma fit_le_neg_inf (f : Fitness) : fit_le f NegInf -> f = NegInf.
Proof. destruct f; simpl; [reflexivity|contradiction]. Qed.

Lemma count_mask_filter (A : Type) (p : A -> bool) (l : list A) :
  count_occ bool_dec (map p l) true = length (filter p l).
Proof.
  induction l as [|x l IH]; simpl; [reflexivity|].
  destruct (p x); destruct (bool_dec _ true);
    simpl; try congruence; try discriminate.
Qed.

End FitnessFacts.

(** ** The test: metrics, encoding, and the main loop *)

Module LoopFacts.
Section Facts.
Context `{Aurora}.
Variable batch_size : Z.
Import AuroraTest StateErr.

(** *** Frame of the scan and of the branches *)

Lemma after_scan_frame (st : LoopState) :
  previous_error (after_scan batch_size st) = previous_error st
  /\ iteration (after_scan batch_size st) = iteration st
  /\ schedules (after_scan batch_size st) = schedules st.
Proof.
  unfold after_scan.
  destruct (nn_scan _ _ _) as [[[[[r k] p] m] s] ms]. simpl. auto.
Qed.

Lemma retrain_branch_frame (st : LoopState) :
  previous_error (retrain_branch st) = previous_error st
  /\ iteration (retrain_branch st) = iteration st
  /\ schedules (retrain_branch st) = schedules st.
Proof.
  unfold retrain_branch.
  destruct (jax_random_split _) as [k subkey].
  destruct (lstm_ae_train _ _ _ _ _) as [[p m] s]. simpl. auto.
Qed.

Lemma controller_branch_frame (st : LoopState) :
  iteration (controller_branch st) = iteration st
  /\ schedules (controller_branch st) = schedules st.
Proof. unfold controller_branch, cvc_update. simpl. auto. Qed.

Lemma loop_body_schedules (st : LoopState) :
  schedules (loop_body batch_size st) = schedules st.
Proof.
  unfold loop_body. destruct (after_scan_frame st) as [_ [_ Hs]].
  destruct (branch_taken _ _).
  - destruct (retrain_branch_frame (after_scan batch_size st)) as [_ [_ E]].
    congruence.
  - destruct (controller_branch_frame (after_scan batch_size st)) as [_ E].
    congruence.
  - exact Hs.
Qed.

(** The loop of the test is not entered from the state the lines before it
    leave: [iteration] is 1 and [num_iterations] was reset to 0. *)
Remark main_loop_not_entered (fuel : nat) (r : Repertoire) (k : RNGKey)
       (p : Params) (m s : Vec) :
  main_loop batch_size fuel (initial_state r k p m s)
  = Some (initial_state r k p m s).
Proof. destruct fuel; reflexivity. Qed.

(** The occupancy count of the controller branch, below the int32 range. *)
Lemma num_indivs_occupancy (f : list Fitness) :
  (Z.of_nat (length f) <= 2 ^ 30)%Z ->
  jnp_sum_bool (map (fun x => negb (is_neg_inf x)) f) = occupancy f.
Proof.
  intros Hlen. unfold occupancy.
  rewrite ScheduleFacts.jnp_sum_bool_count by (rewrite length_map; lia).
  now rewrite FitnessFacts.count_mask_filter.
Qed.

Lemma occupancy_bounds (f : list Fitness) :
  (0 <= occupancy f <= Z.of_nat (length f))%Z.
Proof.
  unfold occupancy.
  pose proof (filter_length_le (fun x => negb (is_neg_inf x)) f). lia.
Qed.

Lemma cvc_update_no_wrap (L : Q) (num_indivs previous_error : Z) :
  (0 <= num_indivs <= 2 ^ 30)%Z ->
  (- 2 ^ 30 <= previous_error <= 2 ^ 30)%Z ->
  cvc_update L num_indivs previous_error
  = spec_controller_step prop_gain n_target L previous_error num_indivs.
Proof.
  intros Hn Hp. unfold cvc_update, spec_controller_step, n_target in *.
  cbv zeta.
  rewrite (@ScheduleFacts.wrap32_small (num_indivs - 1024)) by lia.
  rewrite (@ScheduleFacts.wrap32_small (num_indivs - 1024 - previous_error))
    by lia.
  reflexivity.
Qed.

(** *** C1 *)

(** C1 (as amended).  A controller step returns the unclamped value
    [L + gain * (2 * error - previous_error)]: the new threshold lies in an
    interval [eps, Lmax] exactly when the old one lies in that interval
    shifted by the correction.  (Occupancy and previous error are taken
    inside the range where the int32 subtractions do not wrap.) *)
Theorem cvc_update_unclamped (L eps Lmax : Q) (num_indivs previous_error : Z) :
  (0 <= num_indivs <= 2 ^ 30)%Z ->
  (- 2 ^ 30 <= previous_error <= 2 ^ 30)%Z ->
  let correction :=
    prop_gain * inject_Z (2 * (num_indivs - n_target) - previous_error) in
  fst (cvc_update L num_indivs previous_error) == L + correction
  /\ (eps <= fst (cvc_update L num_indivs previous_error) <= Lmax
      <-> eps - correction <= L <= Lmax - correction).
Proof.
  intros Hn Hp correction.
  assert (HL : fst (cvc_update L num_indivs previous_error) == L + correction).
  { rewrite cvc_update_no_wrap by assumption.
    unfold spec_controller_step, correction. cbn [fst].
    replace (2 * (num_indivs - n_target) - previous_error)%Z
      with ((num_indivs - n_target)
            + (num_indivs - n_target - previous_error))%Z by lia.
    rewrite inject_Z_plus. ring. }
  split; [exact HL|].
  rewrite HL. split; intros [Hlo Hhi]; split; lra.
Qed.

(** *** C5 *)

(** C5.  The controller branch computes [error = occupancy - n_target] and
    the unclamped threshold [L + gain * error + gain * (error -
    previous_error)], one gain on both terms, as the control law of the
    specification does; it hands this threshold to the rebuild and stores
    [error] as [previous_error].  The scan and the retrain branch leave
    [previous_error] alone, so one pass of the loop changes it in the
    controller branch only.  (The archive has at most 2^30 slots and the
    stored error is in that range, so that no int32 subtraction wraps.) *)
Theorem controller_step_follows_control_law (st : LoopState) :
  (Z.of_nat (length (fitnesses (repertoire st))) <= 2 ^ 30)%Z ->
  (- 2 ^ 30 <= previous_error st <= 2 ^ 30)%Z ->
  let r := repertoire st in
  let num_indivs :=
    jnp_sum_bool (map (fun f => negb (is_neg_inf f)) (fitnesses r)) in
  let law :=
    spec_controller_step prop_gain n_target (l_value r) (previous_error st)
                         (occupancy (fitnesses r)) in
  cvc_update (l_value r) num_indivs (previous_error st) = law
  /\ repertoire (controller_branch st)
     = Archive.repertoire_init (genotypes r) (centroids r) (fitnesses r)
                               (descriptors r) (observations r) (fst law)
  /\ previous_error (controller_branch st)
     = (occupancy (fitnesses r) - n_target)%Z
  /\ previous_error (after_scan batch_size st) = previous_error st
  /\ previous_error (retrain_branch st) = previous_error st
  /\ previous_error (loop_body batch_size st)
     = match branch_taken (iteration st) (schedules st) with
       | Controller =>
           previous_error (controller_branch (after_scan batch_size st))
       | _ => previous_error st
       end.
Proof.
  intros Hlen Hprev r num_indivs law.
  assert (Hlaw : cvc_update (l_value r) num_indivs (previous_error st) = law).
  { unfold num_indivs, law. rewrite num_indivs_occupancy by assumption.
    apply cvc_update_no_wrap; [|assumption].
    pose proof (occupancy_bounds (fitnesses r)). fold r in Hlen. lia. }
  destruct (after_scan_frame st) as [Hpe [Hit Hsc]].
  split; [|split; [|split; [|split; [|split]]]].
  - exact Hlaw.
  - unfold controller_branch. fold r. fold num_indivs. rewrite Hlaw.
    reflexivity.
  - unfold controller_branch. fold r. fold num_indivs. rewrite Hlaw.
    reflexivity.
  - exact Hpe.
  - apply retrain_branch_frame.
  - unfold loop_body. rewrite Hit, Hsc.
    destruct (branch_taken _ _); auto.
    destruct (retrain_branch_frame (after_scan batch_size st)) as [E _].
    congruence.
Qed.

(** *** C4 *)

(** C4.  Whenever the generation index the pass looks up in the schedule,
    [iteration + 1], appears in it, the pass takes the retrain branch: the
    state after the pass is the one retrain-and-rebuild produces from the
    state after the scan, and the controller did not run ([previous_error]
    is as before), whether or not [iteration] is even. *)
Theorem retrain_takes_precedence (st : LoopState) :
  jnp_contains (iteration st + 1) (schedules st) = true ->
  branch_taken (iteration st) (schedules st) = Retrain
  /\ loop_body batch_size st = retrain_branch (after_scan batch_size st)
  /\ previous_error (loop_body batch_size st) = previous_error st.
Proof.
  intros Hin.
  assert (Hb : branch_taken (iteration st) (schedules st) = Retrain)
    by (unfold branch_taken; now rewrite Hin).
  destruct (after_scan_frame st) as [Hpe [Hit Hsc]].
  assert (Hbody : loop_body batch_size st
                  = retrain_branch (after_scan batch_size st))
    by (unfold loop_body; now rewrite Hit, Hsc, Hb).
  split; [exact Hb|]. split; [exact Hbody|].
  rewrite Hbody.
  destruct (retrain_branch_frame (after_scan batch_size st)) as [E _].
  congruence.
Qed.

(** *** C2 *)


(** *** C6 *)


(** *** C7 *)

(** C7.  [encode] returns on every input, returns the same descriptors when
    it is called again with the same observations on the same model state,
    and leaves the model state (params, mean, std) as it found it. *)
Theorem encode_deterministic_and_pure (observations : Array3)
        (ms : ModelState) :
  exists d : Array2,
    encode observations ms = Some (d, ms)
    /\ (d1 <- encode observations ;;
        d2 <- encode observations ;;
        ret (d1, d2))%staterr ms = Some ((d, d), ms).
Proof.
  exists (Seq2seqModel.Seq2seq_encode
            model (ms_params ms)
            (normalize observations (ms_mean ms) (ms_std ms))).
  split; reflexivity.
Qed.

(** *** C8 *)

(** C8.  The schedule is computed before the loop from the base interval
    and the log frequency; for positive values of both it is strictly
    increasing; and no number of passes of the loop changes it. *)
Theorem schedule_increasing_and_fixed (base freq : Z) :
  (0 < base)%Z -> (0 < freq)%Z ->
  StronglySorted Z.lt (design_schedule base freq)
  /\ (forall (r : Repertoire) (k : RNGKey) (p : Params) (m s : Vec),
         schedules (initial_state r k p m s)
         = design_schedule default_update_base log_freq)
  /\ (forall (n : nat) (st : LoopState),
         schedules (Nat.iter n (loop_body batch_size) st) = schedules st).
Proof.
  intros Hbase Hfreq. split; [|split].
  - now apply ScheduleFacts.design_schedule_increasing.
  - reflexivity.
  - induction n as [|n IH]; intros st; [reflexivity|].
    simpl. now rewrite loop_body_schedules.
Qed.

(** *** C10 *)

(** C10.  On an archive with at least one slot, [metrics_fn] returns, its
    [max_fitness] is [jnp.max] over all slots, empty ones included: an entry
    of the fitness array that is above every entry.  When a slot is occupied
    this is the largest fitness of the occupied slots; when all slots are
    empty it is the sentinel; and the repertoire is as it was. *)
Theorem metrics_fn_max_fitness (r : Repertoire) :
  fitnesses r <> [] ->
  exists m : MetricsDict,
    metrics_fn r = Some (m, r)
    /\ jnp_max (fitnesses r) = Some (max_fitness m)
    /\ In (max_fitness m) (fitnesses r)
    /\ Forall (fun f => fit_le f (max_fitness m)) (fitnesses r)
    /\ (Exists (fun f => is_neg_inf f = false) (fitnesses r) ->
        In (max_fitness m)
           (filter (fun f => negb (is_neg_inf f)) (fitnesses r))
        /\ Forall (fun f => fit_le f (max_fitness m))
                  (filter (fun f => negb (is_neg_inf f)) (fitnesses r)))
    /\ (Forall (fun f => is_neg_inf f = true) (fitnesses r) ->
        max_fitness m = NegInf).
Proof.
  intros Hne.
  destruct (jnp_max (fitnesses r)) as [mx|] eqn:Hmax;
    [|destruct (fitnesses r); [contradiction|discriminate]].
  destruct (FitnessFacts.jnp_max_spec _ Hmax) as [Hin Hall].
  eexists. split; [|split; [|split; [|split; [|split]]]].
  - unfold metrics_fn, bind, gets, lift_option, ret. rewrite Hmax.
    reflexivity.
  - reflexivity.
  - exact Hin.
  - exact Hall.
  - cbn [max_fitness]. intros Hocc.
    apply Exists_exists in Hocc. destruct Hocc as [f [Hf Hfin]].
    assert (Hmfin : is_neg_inf mx = false).
    { rewrite Forall_forall in Hall. specialize (Hall f Hf).
      destruct mx; [|reflexivity].
      apply FitnessFacts.fit_le_neg_inf in Hall. subst f. discriminate. }
    split.
    + apply filter_In. split; [exact Hin|now rewrite Hmfin].
    + apply Forall_forall. intros g Hg. apply filter_In in Hg.
      rewrite Forall_forall in Hall. now apply Hall.
  - cbn [max_fitness]. intros Hempty.
    rewrite Forall_forall in Hempty. specialize (Hempty mx Hin).
    destruct mx; [reflexivity|discriminate].
Qed.

End Facts.
End LoopFacts.

(* ================================================================== *)
(** * Part III: the properties at concrete inputs                      *)
(* ================================================================== *)

Module Concrete.
Import AuroraTest Samples.

(** Twenty controller steps from the initial threshold 0.2, with ten
    occupied slots at each step (the error is 10 - 1024 throughout): the
    twentieth step takes a positive threshold to a negative one. *)
Lemma threshold_turns_negative :
  let before :=
    Nat.iter 19 (fun s => cvc_update (fst s) 10 (snd s))
             (l_value_init, (10 - n_target)%Z) in
  0 < fst before /\ fst (cvc_update (fst before) 10 (snd before)) < 0.
Proof. split; vm_compute; reflexivity. Qed.

Lemma cvc_update_unclamped_witness :
  (0 <= 10 <= 2 ^ 30)%Z
  /\ (- 2 ^ 30 <= -1014 <= 2 ^ 30)%Z
  /\ fst (cvc_update l_value_init 10 (-1014))
     == l_value_init
        + prop_gain * inject_Z (2 * (10 - n_target) - -1014).
Proof.
  assert (Hn : (0 <= 10 <= 2 ^ 30)%Z) by lia.
  assert (Hp : (- 2 ^ 30 <= -1014 <= 2 ^ 30)%Z) by lia.
  split; [exact Hn|]. split; [exact Hp|].
  exact (proj1 (@LoopFacts.cvc_update_unclamped
                  l_value_init (1 # 100) 1 10 (-1014) Hn Hp)).
Defined.

Lemma controller_step_follows_control_law_witness :
  (Z.of_nat (length (fitnesses (repertoire (sample_state 1)))) <= 2 ^ 30)%Z
  /\ (- 2 ^ 30 <= previous_error (sample_state 1) <= 2 ^ 30)%Z
  /\ previous_error (controller_branch (sample_state 1))
     = (occupancy (fitnesses (repertoire (sample_state 1))) - n_target)%Z.
Proof.
  assert (Hlen : (Z.of_nat (length (fitnesses (repertoire (sample_state 1))))
                  <= 2 ^ 30)%Z) by (vm_compute; discriminate).
  assert (Hprev : (- 2 ^ 30 <= previous_error (sample_state 1) <= 2 ^ 30)%Z)
    by (vm_compute; split; discriminate).
  split; [exact Hlen|]. split; [exact Hprev|].
  exact (proj1 (proj2 (proj2
           (@LoopFacts.controller_step_follows_control_law
              counting_linen sample_domain sample_aurora 10
              (sample_state 1) Hlen Hprev)))).
Defined.

Lemma retrain_takes_precedence_witness :
  jnp_contains (iteration (sample_state 1) + 1) (schedules (sample_state 1))
  = true
  /\ @loop_body counting_linen sample_domain sample_aurora 10 (sample_state 1)
     = @retrain_branch counting_linen sample_domain sample_aurora
         (@after_scan counting_linen sample_domain sample_aurora 10
                      (sample_state 1)).
Proof.
  assert (Hin : jnp_contains (iteration (sample_state 1) + 1)
                             (schedules (sample_state 1)) = true)
    by (vm_compute; reflexivity).
  split; [exact Hin|].
  exact (proj1 (proj2
           (@LoopFacts.retrain_takes_precedence
              counting_linen sample_domain sample_aurora 10
              (sample_state 1) Hin))).
Defined.



Lemma schedule_increasing_and_fixed_witness :
  (0 < default_update_base)%Z
  /\ (0 < log_freq)%Z
  /\ StronglySorted Z.lt (design_schedule default_update_base log_freq).
Proof.
  assert (Hbase : (0 < default_update_base)%Z) by reflexivity.
  assert (Hfreq : (0 < log_freq)%Z) by reflexivity.
  split; [exact Hbase|]. split; [exact Hfreq|].
  exact (proj1 (@LoopFacts.schedule_increasing_and_fixed
                  counting_linen sample_domain sample_aurora 10
                  default_update_base log_freq Hbase Hfreq)).
Defined.

Lemma metrics_fn_max_fitness_witness :
  fitnesses (sample_repertoire 1) <> []
  /\ exists m : MetricsDict,
      @metrics_fn counting_linen sample_domain sample_aurora
                  (sample_repertoire 1)
      = Some (m, sample_repertoire 1)
      /\ In (max_fitness m) (fitnesses (sample_repertoire 1)).
Proof.
  assert (Hne : fitnesses (sample_repertoire 1) <> []) by discriminate.
  split; [exact Hne|].
  destruct (@LoopFacts.metrics_fn_max_fitness
              counting_linen sample_domain sample_aurora
              (sample_repertoire 1) Hne) as [m [Hrun [_ [Hin _]]]].
  exists m. split; assumption.
Defined.

End Concrete.

(* ================================================================== *)
(** * Part IV: further properties of the two files                     *)
(* ================================================================== *)

(** ** The encoder and the decoder *)

Lemma nn_scan_outputs_length (C X Y : Type) (body : C -> X -> C * Y) :
  forall (xs : list X) (carry : C),
    length (snd (nn_scan body carry xs)) = length xs.
Proof.
  induction xs as [|x xs IH]; intros carry; [reflexivity|].
  rewrite nn_scan_outputs_cons. simpl. now rewrite IH.
Qed.

Lemma in_axes1_length (T : nat) :
  forall a : Array3, length (in_axes1 T a) = T.
Proof.
  induction T as [|T IH]; intros a; simpl; [reflexivity|]. now rewrite IH.
Qed.

Module EncoderDecoderFacts.
Section Facts.
Context `{Linen}.
Import Seq2seqModel.

(** X1.  The scan of [EncoderLSTM] hands back the [is_eos] flags it was
    given, whatever the state, the flags and the inputs are: no step raises
    a flag.  From the carry [Encoder] starts with, the flags are [False] for
    every sample after the last step. *)
Theorem EncoderLSTM_scan_keeps_flags (p : CellParams) :
  (forall (xs : list Array2) (lstm_state : Array2 * Array2)
          (is_eos : list bool),
      snd (fst (nn_scan (EncoderLSTM p) (lstm_state, is_eos) xs)) = is_eos)
  /\ (forall (hidden_size : nat) (inputs : Array3),
         snd (fst (nn_scan (EncoderLSTM p)
                           (initialize_carry (length inputs) hidden_size,
                            repeat false (length inputs))
                           (in_axes1 (shape1 inputs) inputs)))
         = repeat false (length inputs)).
Proof.
  assert (Hkeep :
    forall (xs : list Array2) (lstm_state : Array2 * Array2)
           (is_eos : list bool),
      snd (fst (nn_scan (EncoderLSTM p) (lstm_state, is_eos) xs)) = is_eos).
  { induction xs as [|x xs IH]; intros lstm_state is_eos; [reflexivity|].
    rewrite nn_scan_carry_cons.
    assert (Hstep : exists st', fst (EncoderLSTM p (lstm_state, is_eos) x)
                                = (st', is_eos)).
    { unfold EncoderLSTM. destruct (LSTMCell_batch p lstm_state x).
      eexists. reflexivity. }
    destruct Hstep as [st' ->]. apply IH. }
  split; [exact Hkeep|]. intros hidden_size inputs. apply Hkeep.
Qed.


Lemma out_axes1_shape (B : nat) (ys : list Array2) :
  length (out_axes1 B ys) = B
  /\ Forall (fun s => length s = length ys) (out_axes1 B ys).
Proof.
  unfold out_axes1. split.
  - now rewrite length_map, length_seq.
  - apply Forall_map, Forall_forall. intros b _. now rewrite length_map.
Qed.

(** X3.  Whenever the decoder returns, its logits and its predictions hold
    one entry per sample of the batch and, for each sample, as many decoded
    steps as the second dimension of its inputs, with or without teacher
    forcing.  [Seq2seq.__call__] inherits this from the decoder inputs,
    whatever the encoder inputs are. *)
Theorem Decoder_output_shape (tf : bool) (obs : nat)
        (pc : CellParams) (pd : DenseParams) (inputs : Array3)
        (init_state : Array2 * Array2) (logits predictions : Array3) :
  Decoder tf obs pc pd inputs init_state = Some (logits, predictions) ->
  (length logits = length inputs
   /\ Forall (fun s => length s = shape1 inputs) logits)
  /\ (length predictions = length inputs
      /\ Forall (fun s => length s = shape1 inputs) predictions)
  /\ (forall (model : Seq2seq) (params : Params)
             (encoder_inputs : Array3) (out : Array3 * Array3),
         Seq2seq_call model params encoder_inputs inputs = Some out ->
         length (fst out) = length inputs
         /\ Forall (fun s => length s = shape1 inputs) (fst out)).
Proof.
  assert (Hdec :
    forall (tf' : bool) (obs' : nat) (pc' : CellParams) (pd' : DenseParams)
           (st : Array2 * Array2) (l p : Array3),
      Decoder tf' obs' pc' pd' inputs st = Some (l, p) ->
      (length l = length inputs
       /\ Forall (fun s => length s = shape1 inputs) l)
      /\ (length p = length inputs
          /\ Forall (fun s => length s = shape1 inputs) p)).
  { intros tf' obs' pc' pd' st l p. unfold Decoder.
    destruct (shape1 inputs) as [|T] eqn:HT; [discriminate|].
    pose proof (nn_scan_outputs_length
                  (DecoderLSTM tf' obs' pc' pd')
                  (in_axes1 (S T) inputs) (st, column0 inputs))
      as Hlen.
    destruct (nn_scan _ _ _) as [final ys]. cbn [snd] in Hlen.
    rewrite in_axes1_length in Hlen.
    intros Hsome. injection Hsome as <- <-.
    destruct (out_axes1_shape (length inputs) (map fst ys)) as [HB1 HT1].
    destruct (out_axes1_shape (length inputs) (map snd ys)) as [HB2 HT2].
    rewrite length_map, Hlen in HT1, HT2. auto. }
  intros Hsome. destruct (Hdec _ _ _ _ _ _ _ Hsome) as [Hl Hp].
  split; [exact Hl|]. split; [exact Hp|].
  intros model params encoder_inputs [l p] Hcall.
  unfold Seq2seq_call in Hcall. apply Hdec in Hcall. cbn [fst]. tauto.
Qed.

Lemma decoder_scan_sampling (obs : nat) (pc : CellParams) (pd : DenseParams) :
  forall (xs ys : list Array2) (carry : (Array2 * Array2) * Array2),
    length xs = length ys ->
    nn_scan (DecoderLSTM false obs pc pd) carry xs
    = nn_scan (DecoderLSTM false obs pc pd) carry ys.
Proof.
  induction xs as [|x xs IH]; intros [|y ys] carry Hlen;
    simpl in Hlen; try discriminate; [reflexivity|].
  cbn [nn_scan].
  assert (Hstep : DecoderLSTM false obs pc pd carry x
                  = DecoderLSTM false obs pc pd carry y)
    by (destruct carry; reflexivity).
  rewrite Hstep. destruct (DecoderLSTM false obs pc pd carry y) as [carry' out].
  rewrite (IH ys carry') by lia. reflexivity.
Qed.

(** X4.  Without teacher forcing the decoder reads its inputs only at the
    first step: two input batches with the same first step and the same
    number of steps decode to the same logits and predictions. *)
Theorem Decoder_sampling_reads_first_step (obs : nat) (pc : CellParams)
        (pd : DenseParams) (inputs1 inputs2 : Array3)
        (init_state : Array2 * Array2) :
  column0 inputs1 = column0 inputs2 ->
  shape1 inputs1 = shape1 inputs2 ->
  Decoder false obs pc pd inputs1 init_state
  = Decoder false obs pc pd inputs2 init_state.
Proof.
  intros Hcol Hshape. unfold Decoder. rewrite <- Hshape, <- Hcol.
  assert (Hlen : length inputs1 = length inputs2).
  { apply (f_equal (@length Vec)) in Hcol. unfold column0 in Hcol.
    now rewrite !length_map in Hcol. }
  rewrite <- Hlen.
  destruct (shape1 inputs1) as [|T]; [reflexivity|].
  rewrite (decoder_scan_sampling obs pc pd
             (in_axes1 (S T) inputs1) (in_axes1 (S T) inputs2))
    by now rewrite !in_axes1_length.
  reflexivity.
Qed.

Lemma flags_stay_down (eos_signal : Vec -> bool) :
  forall (n : nat) (x : Array2),
    length x = n ->
    Forall (fun row => eos_signal row = false) x ->
    map (fun be => orb (fst be) (eos_signal (snd be)))
        (combine (repeat false n) x)
    = repeat false n.
Proof.
  induction n as [|n IH]; intros [|row x] Hlen Hrows;
    simpl in *; try discriminate; [reflexivity|].
  inversion Hrows as [|? ? Hrow Hrest]; subst.
  rewrite Hrow. f_equal. apply IH; [lia|assumption].
Qed.

Lemma in_axes1_rows (P : Vec -> Prop) :
  forall (T : nat) (inputs : Array3),
    Forall (fun s => length s = T) inputs ->
    Forall (Forall P) inputs ->
    Forall (fun x => length x = length inputs /\ Forall P x)
           (in_axes1 T inputs).
Proof.
  induction T as [|T IH]; intros inputs Hrect HP; [constructor|].
  cbn [in_axes1]. constructor.
  - split; [unfold column0; now rewrite length_map|].
    unfold column0. apply Forall_map. rewrite Forall_forall in *.
    intros s Hs. specialize (Hrect s Hs). specialize (HP s Hs).
    destruct s as [|x s']; [discriminate|]. now inversion HP.
  - replace (length inputs) with (length (columns_from1 inputs))
      by (unfold columns_from1; now rewrite length_map).
    apply IH.
    + unfold columns_from1. apply Forall_map.
      eapply Forall_impl; [|exact Hrect].
      intros s Hs. destruct s; simpl in *; [discriminate|lia].
    + unfold columns_from1. apply Forall_map.
      eapply Forall_impl; [|exact HP].
      intros s Hs. destruct s; simpl; [constructor|now inversion Hs].
Qed.

Lemma documented_scan_without_signal (eos_signal : Vec -> bool)
      (p : CellParams) (n : nat) :
  forall (xs : list Array2) (lstm_state : Array2 * Array2),
    Forall (fun x => length x = n
                     /\ Forall (fun row => eos_signal row = false) x) xs ->
    nn_scan (spec_EncoderLSTM eos_signal p) (lstm_state, repeat false n) xs
    = nn_scan (EncoderLSTM p) (lstm_state, repeat false n) xs.
Proof.
  induction xs as [|x xs IH]; intros lstm_state Hxs; [reflexivity|].
  inversion Hxs as [|? ? [Hlen Hrows] Hrest]; subst.
  cbn [nn_scan].
  assert (Hstep :
    spec_EncoderLSTM eos_signal p (lstm_state, repeat false (length x)) x
    = EncoderLSTM p (lstm_state, repeat false (length x)) x).
  { unfold spec_EncoderLSTM, EncoderLSTM.
    destruct (LSTMCell_batch p lstm_state x) as [new_lstm_state y].
    now rewrite flags_stay_down. }
  rewrite Hstep.
  assert (Hflags : exists st' y,
             EncoderLSTM p (lstm_state, repeat false (length x)) x
             = ((st', repeat false (length x)), y)).
  { unfold EncoderLSTM.
    destruct (LSTMCell_batch p lstm_state x) as [new_lstm_state y].
    eexists. eexists. reflexivity. }
  destruct Hflags as [st' [y ->]]. now rewrite IH.
Qed.

(** X5.  On a rectangular batch in which no step of any sample carries the
    end-of-sequence signal, the encoder of the source returns what the
    encoder its docstring describes returns: leaving the update of [is_eos]
    out changes nothing for such batches. *)
Theorem Encoder_agrees_without_signal (eos_signal : Vec -> bool)
        (hidden_size : nat) (p : CellParams) (inputs : Array3) :
  Forall (fun s => length s = shape1 inputs) inputs ->
  Forall (Forall (fun row => eos_signal row = false)) inputs ->
  spec_Encoder eos_signal hidden_size p inputs
  = Encoder hidden_size p inputs.
Proof.
  intros Hrect Hquiet. unfold spec_Encoder, Encoder.
  rewrite (@documented_scan_without_signal eos_signal p (length inputs)).
  - reflexivity.
  - now apply in_axes1_rows.
Qed.

End Facts.
End EncoderDecoderFacts.

(** ** The metrics function *)

Module MetricsFacts.
Section Facts.
Context `{Aurora}.
Import AuroraTest StateErr.

Lemma jnp_sum_where_occupied (f : list Fitness) :
  jnp_sum_where f (map negb (map is_neg_inf f)) = Finite (sum_occupied f).
Proof.
  induction f as [|[|q] f IH]; simpl; [reflexivity|exact IH|].
  now rewrite IH.
Qed.

Lemma jnp_sum_complement_occupancy (f : list Fitness) :
  jnp_sum_complement (map is_neg_inf f) == inject_Z (occupancy f).
Proof.
  unfold occupancy.
  induction f as [|[|q] f IH]; cbn [map jnp_sum_complement fold_right
                                     is_neg_inf filter negb length].
  - reflexivity.
  - fold (jnp_sum_complement (map is_neg_inf f)). rewrite IH. ring.
  - fold (jnp_sum_complement (map is_neg_inf f)). rewrite IH.
    rewrite Nat2Z.inj_succ. unfold Z.succ. rewrite inject_Z_plus. ring.
Qed.

Lemma metrics_fn_runs (r : Repertoire) (x : Fitness) (t : list Fitness) :
  fitnesses r = x :: t ->
  metrics_fn r
  = Some ({| qd_score :=
               fit_add (jnp_sum_where (fitnesses r)
                                      (map negb (map is_neg_inf (fitnesses r))))
                       (Finite (reward_offset * inject_Z episode_length
                                * jnp_sum_complement
                                    (map is_neg_inf (fitnesses r))));
             max_fitness := fold_left fit_max t x;
             coverage :=
               100 * jnp_mean_complement (map is_neg_inf (fitnesses r)) |},
          r).
Proof.
  intros Hf. unfold metrics_fn, bind, gets, lift_option, ret.
  rewrite Hf. reflexivity.
Qed.

(** X6.  [metrics_fn] raises exactly on an archive without slots (the
    maximum of an empty array); on every other archive it returns, its
    coverage is 100 times the share of occupied slots, a number between 0 and
    100, and the repertoire is as before. *)
Theorem metrics_fn_coverage (r : Repertoire) :
  match fitnesses r with
  | [] => metrics_fn r = None
  | _ :: _ =>
      exists m : MetricsDict,
        metrics_fn r = Some (m, r)
        /\ coverage m
           == 100 * (inject_Z (occupancy (fitnesses r))
                     / inject_Z (Z.of_nat (length (fitnesses r))))
        /\ 0 <= coverage m <= 100
  end.
Proof.
  destruct (fitnesses r) as [|x t] eqn:Hf.
  - unfold metrics_fn, bind, gets, lift_option, ret. now rewrite Hf.
  - eexists. split; [apply (metrics_fn_runs r Hf)|].
    cbn [coverage]. unfold jnp_mean_complement.
    rewrite length_map, jnp_sum_complement_occupancy, Hf.
    split; [reflexivity|].
    pose proof (LoopFacts.occupancy_bounds (x :: t)) as [Hlo Hhi].
    set (occ := occupancy (x :: t)) in *.
    set (n := Z.of_nat (length (x :: t))) in *.
    assert (Hn : (0 < n)%Z) by (unfold n; simpl length; lia).
    assert (Hnq : 0 < inject_Z n)
      by (change 0 with (inject_Z 0); now rewrite <- Zlt_Qlt).
    assert (Hoq : 0 <= inject_Z occ)
      by (change 0 with (inject_Z 0); now rewrite <- Zle_Qle).
    assert (Hle : inject_Z occ <= inject_Z n) by now rewrite <- Zle_Qle.
    assert (Hd0 : 0 <= inject_Z occ / inject_Z n).
    { apply Qle_shift_div_l; [exact Hnq|]. lra. }
    assert (Hd1 : inject_Z occ / inject_Z n <= 1).
    { apply Qle_shift_div_r; [exact Hnq|]. lra. }
    split; lra.
Qed.

(** X7.  On every archive with at least one slot the quality-diversity
    score is finite (the sentinel of the empty slots is masked out): it is
    the sum of the fitnesses of the occupied slots plus the offset
    [reward_offset * episode_length] once per occupied slot.  When no
    occupied slot has a fitness below minus that offset, the score is not
    negative. *)
Theorem metrics_fn_qd_score (r : Repertoire) :
  fitnesses r <> [] ->
  exists (m : MetricsDict) (q : Q),
    metrics_fn r = Some (m, r)
    /\ qd_score m = Finite q
    /\ q == sum_occupied (fitnesses r)
            + reward_offset * inject_Z episode_length
              * inject_Z (occupancy (fitnesses r))
    /\ (Forall (fun f => match f with
                         | NegInf => True
                         | Finite v =>
                             0 <= v + reward_offset * inject_Z episode_length
                         end) (fitnesses r) ->
        0 <= q).
Proof.
  intros Hne.
  destruct (fitnesses r) as [|x t] eqn:Hf; [contradiction|].
  eexists. eexists. split; [apply (metrics_fn_runs r Hf)|].
  cbn [qd_score]. rewrite jnp_sum_where_occupied. cbn [fit_add].
  split; [reflexivity|]. rewrite Hf.
  assert (Hq : sum_occupied (x :: t)
               + reward_offset * inject_Z episode_length
                 * jnp_sum_complement (map is_neg_inf (x :: t))
               == sum_occupied (x :: t)
                  + reward_offset * inject_Z episode_length
                    * inject_Z (occupancy (x :: t)))
    by now rewrite jnp_sum_complement_occupancy.
  split; [exact Hq|]. intros Hoff. rewrite Hq.
  clear Hq Hf Hne. set (c := reward_offset * inject_Z episode_length) in *.
  clearbody c.
  induction (x :: t) as [|[|v] l IH].
  - unfold occupancy. simpl. change (inject_Z 0) with 0. lra.
  - inversion Hoff; subst. unfold occupancy in *. simpl. auto.
  - inversion Hoff as [|? ? Hv Hrest]; subst. specialize (IH Hrest).
    unfold occupancy in *.
    cbn [sum_occupied filter is_neg_inf negb length].
    rewrite Nat2Z.inj_succ. unfold Z.succ. rewrite inject_Z_plus.
    change (inject_Z 1) with 1.
    rewrite Qmult_plus_distr_r, Qmult_1_r. lra.
Qed.

End Facts.
End MetricsFacts.

(** ** The schedule and the cadence *)

Module ScheduleShape.
Import AuroraTest.
Local Open Scope Z_scope.

Lemma cumsum_from_length (l : list Z) :
  forall acc : Z, length (cumsum_from acc l) = length l.
Proof.
  induction l as [|x l IH]; intros acc; simpl; [reflexivity|].
  now rewrite IH.
Qed.

(** The partial sums of [b, 2b, 3b, ...], started after [s] terms. *)
Lemma cumsum_from_multiples (b : Z) :
  0 < b ->
  forall (n s : nat) (acc : Z),
    2 * acc = b * Z.of_nat s * (Z.of_nat s + 1) ->
    b * (Z.of_nat s + Z.of_nat n) < 1000 ->
    forall j : nat,
      (j < n)%nat ->
      2 * nth j (cumsum_from acc
                   (map (fun k => b + Z.of_nat k * b) (seq s n))) 0
      = b * (Z.of_nat s + Z.of_nat j + 1) * (Z.of_nat s + Z.of_nat j + 2).
Proof.
  intros Hb. induction n as [|n IH]; intros s acc Hacc Hbound j Hj; [lia|].
  cbn [seq map cumsum_from]. cbv zeta.
  assert (Hs : Z.of_nat s + 1 <= 1000) by nia.
  assert (Hbs : 0 <= b * Z.of_nat s < 1000) by nia.
  assert (Hacc0 : 0 <= 2 * acc <= 1000 * 1000) by nia.
  rewrite (@ScheduleFacts.wrap32_small (acc + (b + Z.of_nat s * b))) by nia.
  destruct j as [|j].
  - cbn [nth]. nia.
  - cbn [nth].
    assert (Hacc' : 2 * (acc + (b + Z.of_nat s * b))
                    = b * Z.of_nat (S s) * (Z.of_nat (S s) + 1))
      by (rewrite Nat2Z.inj_succ; nia).
    assert (Hbound' : b * (Z.of_nat (S s) + Z.of_nat n) < 1000)
      by (rewrite Nat2Z.inj_succ; nia).
    rewrite (IH (S s) (acc + (b + Z.of_nat s * b)) Hacc' Hbound' j)
      by lia.
    rewrite !Nat2Z.inj_succ. nia.
Qed.

(** X8.  For every [update_base] of at least 1, the schedule
    [jnp.cumsum(jnp.arange(update_base, 1000, update_base))] has
    [ceil((1000 - update_base) / update_base)] entries and entry [j]
    (counted from 0) is [update_base * (j+1) * (j+2) / 2]: the gap between
    two retrainings grows by [update_base] each time.  In the test
    [update_base] is 2 and the entries are the 499 numbers (j+1)(j+2). *)
Theorem schedule_closed_form (update_base : Z) :
  1 <= update_base ->
  let schedules := jnp_cumsum (jnp_arange update_base 1000 update_base) in
  length schedules
  = Z.to_nat (ceil_div (1000 - update_base) update_base)
  /\ forall j : nat,
       (j < length schedules)%nat ->
       2 * nth j schedules 0
       = update_base * (Z.of_nat j + 1) * (Z.of_nat j + 2).
Proof.
  intros Hb schedules.
  assert (Hlen : length schedules
                 = Z.to_nat (ceil_div (1000 - update_base) update_base)).
  { unfold schedules, jnp_cumsum, jnp_arange.
    now rewrite cumsum_from_length, length_map, length_seq. }
  split; [exact Hlen|]. intros j Hj. rewrite Hlen in Hj.
  unfold schedules, jnp_cumsum, jnp_arange.
  set (n := Z.to_nat (ceil_div (1000 - update_base) update_base)) in *.
  rewrite (@cumsum_from_multiples update_base ltac:(lia) n 0%nat 0);
    try lia.
  assert (Hlast : Z.of_nat (n - 1)
                  < ceil_div (1000 - update_base) update_base) by lia.
  pose proof (@ScheduleFacts.below_ceil_div
                (Z.of_nat (n - 1)) (1000 - update_base) update_base
                ltac:(lia) Hlast).
  nia.
Qed.

Lemma jnp_contains_In (x : Z) (a : list Z) :
  jnp_contains x a = true -> In x a.
Proof.
  unfold jnp_contains. intros Hx. apply existsb_exists in Hx.
  destruct Hx as [y [Hin Heq]]. apply Z.eqb_eq in Heq. now subst.
Qed.

(** X9.  With the schedule of the test, every entry is even, so the retrain
    test [(iteration + 1) in schedules] can only hold for an odd [iteration]
    and never meets the cadence test [iteration % 2 == 0]: on every even
    iteration the controller branch runs, on an odd one the retrain branch
    runs if [iteration + 1] is scheduled and no branch otherwise. *)
Theorem branch_decided_by_parity (iteration : Z) :
  let schedules := design_schedule default_update_base log_freq in
  branch_taken iteration schedules
  = if iteration mod 2 =? 0 then Controller
    else if jnp_contains (iteration + 1) schedules then Retrain
         else Neither.
Proof.
  intros schedules. unfold branch_taken.
  destruct (jnp_contains (iteration + 1) schedules) eqn:Hin.
  - apply jnp_contains_In in Hin.
    assert (Heven : forallb Z.even schedules = true)
      by (vm_compute; reflexivity).
    rewrite forallb_forall in Heven. apply Heven in Hin.
    rewrite Z.even_spec in Hin. destruct Hin as [k Hk].
    assert (Hodd : iteration mod 2 = 1).
    { replace iteration with (1 + (k - 1) * 2) by lia.
      rewrite Z.mod_add by lia. reflexivity. }
    rewrite Hodd. reflexivity.
  - destruct (iteration mod 2 =? 0); reflexivity.
Qed.

End ScheduleShape.

(** ** The controller of the threshold *)

Module ControllerFacts.
Import AuroraTest.

Lemma prop_gain_positive : 0 < prop_gain.
Proof. reflexivity. Qed.

Lemma cvc_update_shift (L : Q) (num_indivs previous_error : Z) :
  (0 <= num_indivs <= 2 ^ 30)%Z ->
  (- 2 ^ 30 <= previous_error <= 2 ^ 30)%Z ->
  fst (cvc_update L num_indivs previous_error)
  == L + prop_gain
         * inject_Z (2 * (num_indivs - n_target) - previous_error).
Proof.
  intros Hn Hp. rewrite LoopFacts.cvc_update_no_wrap by assumption.
  unfold spec_controller_step. cbn [fst].
  replace (2 * (num_indivs - n_target) - previous_error)%Z
    with ((num_indivs - n_target)
          + (num_indivs - n_target - previous_error))%Z by lia.
  rewrite inject_Z_plus. ring.
Qed.

(** X10.  A controller step lowers the threshold exactly when
    [2 * error - previous_error] is negative, raises it exactly when that
    number is positive and keeps it exactly when it is zero, where
    [error = num_indivs - n_target].  (Below the int32 range.) *)
Theorem cvc_update_direction (L : Q) (num_indivs previous_error : Z) :
  (0 <= num_indivs <= 2 ^ 30)%Z ->
  (- 2 ^ 30 <= previous_error <= 2 ^ 30)%Z ->
  let drive := (2 * (num_indivs - n_target) - previous_error)%Z in
  (fst (cvc_update L num_indivs previous_error) < L <-> (drive < 0)%Z)
  /\ (L < fst (cvc_update L num_indivs previous_error) <-> (0 < drive)%Z)
  /\ (fst (cvc_update L num_indivs previous_error) == L <-> drive = 0%Z).
Proof.
  intros Hn Hp drive.
  pose proof (cvc_update_shift L Hn Hp) as Hshift. fold drive in Hshift.
  pose proof prop_gain_positive as Hg.
  rewrite Hshift.
  assert (Hneg : (drive < 0)%Z <-> inject_Z drive < 0)
    by (change 0 with (inject_Z 0); now rewrite <- Zlt_Qlt).
  assert (Hpos : (0 < drive)%Z <-> 0 < inject_Z drive)
    by (change 0 with (inject_Z 0); now rewrite <- Zlt_Qlt).
  assert (Hzero : drive = 0%Z <-> inject_Z drive == 0)
    by (change 0 with (inject_Z 0); symmetry; apply inject_Z_injective).
  rewrite Hneg, Hpos, Hzero.
  set (d := inject_Z drive) in *. clearbody d.
  set (g := prop_gain) in *. clearbody g.
  repeat split; intros Hd; nra.
Qed.

(** X11.  In the test the target is 1024 and the archive has
    [num_centroids = 50] slots: whenever the occupancy now and at the
    previous controller step are counts of at most 50 slots, the controller
    step strictly lowers the threshold. *)
Theorem cvc_update_lowers_threshold (L : Q) (num_indivs previous_error : Z) :
  (0 <= num_indivs <= Z.of_nat num_centroids)%Z ->
  (0 <= previous_error + n_target <= Z.of_nat num_centroids)%Z ->
  fst (cvc_update L num_indivs previous_error) < L.
Proof.
  unfold num_centroids, n_target. intros Hn Hp.
  rewrite cvc_update_shift by lia.
  pose proof prop_gain_positive as Hg.
  assert (Hd : inject_Z (2 * (num_indivs - n_target) - previous_error) < 0).
  { change 0 with (inject_Z 0). rewrite <- Zlt_Qlt. unfold n_target. lia. }
  set (d := inject_Z _) in *. clearbody d.
  set (g := prop_gain) in *. clearbody g. nra.
Qed.

(** X12.  While the occupancy stays at a constant count, successive
    controller steps move the threshold along a line: after [k] steps,
    started with that count's error as previous error, the threshold is
    [L + k * prop_gain * error] and the stored error is still [error]. *)
Theorem cvc_update_constant_occupancy (L : Q) (num_indivs : Z) (k : nat) :
  (0 <= num_indivs <= 2 ^ 30)%Z ->
  let error := (num_indivs - n_target)%Z in
  let after :=
    Nat.iter k (fun s => cvc_update (fst s) num_indivs (snd s)) (L, error) in
  fst after == L + inject_Z (Z.of_nat k) * (prop_gain * inject_Z error)
  /\ snd after = error.
Proof.
  intros Hn error. induction k as [|k IH]; cbv zeta in *.
  - simpl. split; [ring|reflexivity].
  - destruct IH as [IHL IHe]. rewrite Nat.iter_succ.
    set (s := Nat.iter k _ _) in *.
    rewrite LoopFacts.cvc_update_no_wrap
      by (rewrite ?IHe; unfold error, n_target; lia).
    unfold spec_controller_step. cbn [fst snd]. rewrite IHe. fold error.
    split; [|reflexivity].
    rewrite IHL. replace (error - error)%Z with 0%Z by lia.
    rewrite Nat2Z.inj_succ. unfold Z.succ. rewrite inject_Z_plus.
    change (inject_Z 0) with 0. change (inject_Z 1) with 1. ring.
Qed.

End ControllerFacts.

(** ** The scan of updates and the main loop *)

Module MainLoopFacts.
Section Facts.
Context `{Aurora}.
Variable batch_size : Z.
Import AuroraTest.

Lemma update_scan_iterates (p : Params) (m s : Vec) :
  forall (n : nat) (r : Repertoire) (k : RNGKey),
    fst (nn_scan update_scan_fn (r, k, p, m, s) (repeat tt n))
    = (fst (Nat.iter n (one_update p m s) (r, k)),
       snd (Nat.iter n (one_update p m s) (r, k)), p, m, s).
Proof.
  induction n as [|n IH]; intros r k; [reflexivity|].
  cbn [repeat]. rewrite nn_scan_carry_cons.
  assert (Hstep : fst (update_scan_fn (r, k, p, m, s) tt)
                  = (fst (one_update p m s (r, k)),
                     snd (one_update p m s (r, k)), p, m, s)).
  { unfold update_scan_fn, one_update. cbn [fst snd].
    destruct (aurora_update r k p m s) as [[r' mt] k']. reflexivity. }
  rewrite Hstep, IH, Nat.iter_succ_r.
  destruct (one_update p m s (r, k)) as [r' k']. reflexivity.
Qed.

(** X13.  The scan of [log_freq] updates threads params, mean and std
    through unchanged, collects [log_freq] metrics dictionaries, and leaves
    the repertoire and the key that [log_freq] successive calls of
    [aurora.update] produce. *)
Theorem after_scan_runs_updates (st : LoopState) :
  let st' := after_scan batch_size st in
  let p := model_params st in
  let m := mean_observations st in
  let s := std_observations st in
  let final :=
    Nat.iter (Z.to_nat log_freq) (one_update p m s)
             (repertoire st, random_key st) in
  (model_params st', mean_observations st', std_observations st') = (p, m, s)
  /\ (repertoire st', random_key st') = final
  /\ length (metrics st') = Z.to_nat log_freq.
Proof.
  cbv zeta. unfold after_scan.
  pose proof (update_scan_iterates
                (model_params st) (mean_observations st) (std_observations st)
                (Z.to_nat log_freq) (repertoire st) (random_key st)) as Hcarry.
  pose proof (nn_scan_outputs_length
                update_scan_fn (repeat tt (Z.to_nat log_freq))
                (repertoire st, random_key st, model_params st,
                 mean_observations st, std_observations st)) as Hlen.
  destruct (nn_scan _ _ _) as [[[[[r k] p] m] s] ms].
  cbn [fst snd] in Hcarry, Hlen. rewrite repeat_length in Hlen.
  injection Hcarry as Hr Hk Hp Hm Hs. subst p m s.
  cbn [model_params mean_observations std_observations repertoire random_key
       metrics].
  split; [reflexivity|]. split; [|exact Hlen].
  subst r k. symmetry. apply surjective_pairing.
Qed.

(** X14.  Only the retrain branch replaces the model: a pass of the loop
    that takes the controller branch or no branch ends with the params, mean
    and std it started with; a pass that takes the retrain branch ends with
    what the trainer returned. *)
Theorem loop_body_model_state (st : LoopState) :
  (model_params (loop_body batch_size st),
   mean_observations (loop_body batch_size st),
   std_observations (loop_body batch_size st))
  = match branch_taken (iteration st) (schedules st) with
    | Retrain =>
        lstm_ae_train
          (snd (jax_random_split (random_key (after_scan batch_size st))))
          (repertoire (after_scan batch_size st))
          (model_params st) (iteration st) hidden_size
    | _ => (model_params st, mean_observations st, std_observations st)
    end.
Proof.
  destruct (LoopFacts.after_scan_frame batch_size st) as [_ [Hit Hsc]].
  destruct (after_scan_runs_updates st) as [Hmodel _]. cbv zeta in Hmodel.
  injection Hmodel as Hp Hm Hs.
  unfold loop_body. rewrite Hit, Hsc.
  destruct (branch_taken (iteration st) (schedules st)).
  - unfold retrain_branch. rewrite Hp, Hit.
    destruct (jax_random_split _) as [k subkey]. cbn [snd].
    destruct (lstm_ae_train _ _ _ _ _) as [[p m] s]. reflexivity.
  - unfold controller_branch, cvc_update. cbn. now rewrite Hp, Hm, Hs.
  - now rewrite Hp, Hm, Hs.
Qed.

Lemma loop_body_counters (st : LoopState) :
  iteration (loop_body batch_size st) = iteration st
  /\ num_iterations (loop_body batch_size st) = (iteration st * log_freq)%Z.
Proof.
  assert (Hscan : iteration (after_scan batch_size st) = iteration st
                  /\ num_iterations (after_scan batch_size st)
                     = (iteration st * log_freq)%Z).
  { unfold after_scan.
    destruct (nn_scan _ _ _) as [[[[[r k] p] m] s] ms]. split; reflexivity. }
  destruct Hscan as [Hit Hnum]. unfold loop_body.
  destruct (branch_taken _ _).
  - unfold retrain_branch.
    destruct (jax_random_split _) as [k subkey].
    destruct (lstm_ae_train _ _ _ _ _) as [[p m] s]. cbn. auto.
  - unfold controller_branch, cvc_update. cbn. auto.
  - auto.
Qed.

(** X15.  The loop exits at once, without a pass of its body, from every
    state with [num_iterations <= iteration]; the state the lines before the
    loop leave is such a state ([iteration = 1], [num_iterations = 0]), so
    the test runs no controller step and no retraining inside the loop. *)
Theorem main_loop_exits_at_once :
  (forall (fuel : nat) (st : LoopState),
      (num_iterations st <= iteration st)%Z ->
      main_loop batch_size fuel st = Some st)
  /\ (forall (fuel : nat) (r : Repertoire) (k : RNGKey) (p : Params)
             (m s : Vec),
         main_loop batch_size fuel (initial_state r k p m s)
         = Some (initial_state r k p m s)).
Proof.
  assert (Hexit : forall (fuel : nat) (st : LoopState),
             (num_iterations st <= iteration st)%Z ->
             main_loop batch_size fuel st = Some st).
  { intros fuel st Hle.
    assert (Hcond : (iteration st <? num_iterations st)%Z = false)
      by (apply Z.ltb_ge; exact Hle).
    destruct fuel; simpl; now rewrite Hcond. }
  split; [exact Hexit|].
  intros fuel r k p m s. apply Hexit. simpl. lia.
Qed.

(** X16.  The body never advances [iteration] and sets [num_iterations] to
    [iteration * log_freq]: once the loop is entered with a positive
    [iteration], its condition holds after every pass, and no number of
    passes reaches the exit. *)
Theorem main_loop_never_exits (st : LoopState) :
  (1 <= iteration st)%Z ->
  (iteration st < num_iterations st)%Z ->
  forall fuel : nat, main_loop batch_size fuel st = None.
Proof.
  intros Hpos Hlt fuel. revert st Hpos Hlt.
  induction fuel as [|fuel IH]; intros st Hpos Hlt.
  - simpl. apply Z.ltb_lt in Hlt. now rewrite Hlt.
  - cbn [main_loop]. apply Z.ltb_lt in Hlt. rewrite Hlt.
    destruct (loop_body_counters st) as [Hit Hnum].
    apply IH; rewrite ?Hit, ?Hnum; unfold log_freq; lia.
Qed.

End Facts.
End MainLoopFacts.

(** ** The further properties at concrete inputs *)

Module ConcreteMore.
Import AuroraTest Samples.


Lemma Decoder_sampling_reads_first_step_witness :
  column0 [[token 1; token 2]] = column0 [[token 1; token 3]]
  /\ shape1 [[token 1; token 2]] = shape1 [[token 1; token 3]]
  /\ @Seq2seqModel.Decoder counting_linen false 9 tt tt
        [[token 1; token 2]] ([[0]], [[0]])
     = @Seq2seqModel.Decoder counting_linen false 9 tt tt
        [[token 1; token 3]] ([[0]], [[0]]).
Proof.
  assert (Hcol : column0 [[token 1; token 2]] = column0 [[token 1; token 3]])
    by reflexivity.
  assert (Hshape : shape1 [[token 1; token 2]] = shape1 [[token 1; token 3]])
    by reflexivity.
  split; [exact Hcol|]. split; [exact Hshape|].
  exact (@EncoderDecoderFacts.Decoder_sampling_reads_first_step
           counting_linen 9 tt tt [[token 1; token 2]] [[token 1; token 3]]
           ([[0]], [[0]]) Hcol Hshape).
Defined.

Lemma Encoder_agrees_without_signal_witness :
  Forall (fun s => length s = shape1 [[token 1; token 2]])
         [[token 1; token 2]]
  /\ Forall (Forall (fun row => eos_feature8 row = false))
            [[token 1; token 2]]
  /\ @Seq2seqModel.spec_Encoder counting_linen eos_feature8 1 tt
        [[token 1; token 2]]
     = @Seq2seqModel.Encoder counting_linen 1 tt [[token 1; token 2]].
Proof.
  assert (Hrect : Forall (fun s => length s = shape1 [[token 1; token 2]])
                         [[token 1; token 2]]) by (repeat constructor).
  assert (Hquiet : Forall (Forall (fun row => eos_feature8 row = false))
                          [[token 1; token 2]]) by (repeat constructor).
  split; [exact Hrect|]. split; [exact Hquiet|].
  exact (@EncoderDecoderFacts.Encoder_agrees_without_signal
           counting_linen eos_feature8 1 tt [[token 1; token 2]]
           Hrect Hquiet).
Defined.

Lemma main_loop_exits_at_once_witness :
  (num_iterations (sample_state 1) <= iteration (sample_state 1))%Z
  /\ @main_loop counting_linen sample_domain sample_aurora 10 3
                (sample_state 1)
     = Some (sample_state 1).
Proof.
  assert (Hle : (num_iterations (sample_state 1)
                 <= iteration (sample_state 1))%Z)
    by (vm_compute; discriminate).
  split; [exact Hle|].
  exact (proj1 (@MainLoopFacts.main_loop_exits_at_once
                  counting_linen sample_domain sample_aurora 10)
               3%nat (sample_state 1) Hle).
Defined.

Lemma Decoder_output_shape_witness :
  @Seq2seqModel.Decoder counting_linen true 1 tt tt
     [[[5]; [6]]] ([[0]], [[0]])
  = Some ([[[1]; [2]]], [[[1]; [2]]])
  /\ length [[[1]; [2]]] = length [[[5]; [6]]]
  /\ Forall (fun s => length s = shape1 [[[5]; [6]]]) [[[1]; [2]]].
Proof.
  assert (Hrun : @Seq2seqModel.Decoder counting_linen true 1 tt tt
                    [[[5]; [6]]] ([[0]], [[0]])
                 = Some ([[[1]; [2]]], [[[1]; [2]]]))
    by (vm_compute; reflexivity).
  split; [exact Hrun|].
  exact (proj1 (@EncoderDecoderFacts.Decoder_output_shape
                  counting_linen true 1 tt tt [[[5]; [6]]]
                  ([[0]], [[0]]) [[[1]; [2]]] [[[1]; [2]]] Hrun)).
Defined.

Lemma metrics_fn_qd_score_witness :
  fitnesses (sample_repertoire 1) <> []
  /\ exists (m : MetricsDict) (q : Q),
      @metrics_fn counting_linen sample_domain sample_aurora
                  (sample_repertoire 1)
      = Some (m, sample_repertoire 1)
      /\ qd_score m = Finite q /\ 0 <= q.
Proof.
  assert (Hne : fitnesses (sample_repertoire 1) <> []) by discriminate.
  split; [exact Hne|].
  destruct (@MetricsFacts.metrics_fn_qd_score
              counting_linen sample_domain sample_aurora
              (sample_repertoire 1) Hne)
    as [m [q [Hrun [Hq [_ Hpos]]]]].
  exists m, q. split; [exact Hrun|]. split; [exact Hq|].
  apply Hpos. repeat constructor; vm_compute; discriminate.
Defined.

Lemma schedule_closed_form_witness :
  (1 <= 2)%Z
  /\ length (jnp_cumsum (jnp_arange 2 1000 2)) = 499%nat
  /\ design_schedule default_update_base log_freq
     = jnp_cumsum (jnp_arange 2 1000 2).
Proof.
  assert (Hb : (1 <= 2)%Z) by lia.
  split; [exact Hb|]. split; [|reflexivity].
  exact (proj1 (@ScheduleShape.schedule_closed_form 2 Hb)).
Defined.

Lemma cvc_update_direction_witness :
  (0 <= 10 <= 2 ^ 30)%Z
  /\ (- 2 ^ 30 <= -1014 <= 2 ^ 30)%Z
  /\ (fst (cvc_update l_value_init 10 (-1014)) < l_value_init
      <-> (2 * (10 - n_target) - -1014 < 0)%Z).
Proof.
  assert (Hn : (0 <= 10 <= 2 ^ 30)%Z) by lia.
  assert (Hp : (- 2 ^ 30 <= -1014 <= 2 ^ 30)%Z) by lia.
  split; [exact Hn|]. split; [exact Hp|].
  exact (proj1 (@ControllerFacts.cvc_update_direction
                  l_value_init 10 (-1014) Hn Hp)).
Defined.

Lemma cvc_update_lowers_threshold_witness :
  (0 <= 10 <= Z.of_nat num_centroids)%Z
  /\ (0 <= -1014 + n_target <= Z.of_nat num_centroids)%Z
  /\ fst (cvc_update l_value_init 10 (-1014)) < l_value_init.
Proof.
  assert (Hn : (0 <= 10 <= Z.of_nat num_centroids)%Z)
    by (vm_compute; split; discriminate).
  assert (Hp : (0 <= -1014 + n_target <= Z.of_nat num_centroids)%Z)
    by (vm_compute; split; discriminate).
  split; [exact Hn|]. split; [exact Hp|].
  exact (@ControllerFacts.cvc_update_lowers_threshold
           l_value_init 10 (-1014) Hn Hp).
Defined.

Lemma cvc_update_constant_occupancy_witness :
  (0 <= 10 <= 2 ^ 30)%Z
  /\ fst (Nat.iter 20 (fun s => cvc_update (fst s) 10 (snd s))
                   (l_value_init, (10 - n_target)%Z))
     == l_value_init
        + inject_Z (Z.of_nat 20) * (prop_gain * inject_Z (10 - n_target)).
Proof.
  assert (Hn : (0 <= 10 <= 2 ^ 30)%Z) by lia.
  split; [exact Hn|].
  exact (proj1 (@ControllerFacts.cvc_update_constant_occupancy
                  l_value_init 10 20 Hn)).
Defined.

Lemma main_loop_never_exits_witness :
  (1 <= iteration (@after_scan counting_linen sample_domain sample_aurora 10
                               (sample_state 1)))%Z
  /\ (iteration (@after_scan counting_linen sample_domain sample_aurora 10
                             (sample_state 1))
      < num_iterations (@after_scan counting_linen sample_domain sample_aurora
                                    10 (sample_state 1)))%Z
  /\ @main_loop counting_linen sample_domain sample_aurora 10 7
                (@after_scan counting_linen sample_domain sample_aurora 10
                             (sample_state 1))
     = None.
Proof.
  assert (Hpos :
    (1 <= iteration (@after_scan counting_linen sample_domain sample_aurora 10
                                 (sample_state 1)))%Z)
    by (vm_compute; discriminate).
  assert (Hlt :
    (iteration (@after_scan counting_linen sample_domain sample_aurora 10
                            (sample_state 1))
     < num_iterations (@after_scan counting_linen sample_domain sample_aurora
                                   10 (sample_state 1)))%Z)
    by (vm_compute; reflexivity).
  split; [exact Hpos|]. split; [exact Hlt|].
  exact (@MainLoopFacts.main_loop_never_exits
           counting_linen sample_domain sample_aurora 10 _ Hpos Hlt 7%nat).
Defined.

End ConcreteMore.
